(** * ba._assetmanager: asset manager state persistence and the download loop

    A shallow embedding of [assets/src/ba_data/python/ba/_assetmanager.py]:
    the [AssetManager] class (construction, teardown, [update],
    [load_state], [save_state], [launch_gather]), the [AssetGather] class and
    the module-level [fetch_url] routine.

    Python code is modelled as state-passing computations that may raise:
    a computation maps a state to a new state and either a value or an
    exception.  The state of module-level code is the [World] (file system,
    everything written to stdout or the log, the number of reads issued on
    the network stream, the seconds slept); a method additionally threads
    the object [self].

    What the module calls but does not define is modelled after the
    interpreter and its library: [int] on a header, the conversion of an
    integer to a float, the reader of a socket, which refuses every read
    after one that timed out, and the permissions of files and
    directories. *)

From Stdlib Require Import ZArith QArith Lia.
From Stdlib.Strings Require Import Ascii String Byte.
From Stdlib.Lists Require Import List.
From stdpp Require Import base option list gmap strings.

Local Open Scope Z_scope.
Local Open Scope string_scope.
Local Open Scope list_scope.

(** ** Exceptions and results *)

(** The exception classes the module can meet.  All of them derive from
    [Exception]; [SocketTimeout] is [socket.timeout], and [OSError] is an
    instance of [OSError] itself, which [except socket.timeout] does not
    catch. *)
Inductive exn : Type :=
| RuntimeError (msg : string)
| TypeError
| ValueError
| ZeroDivisionError
| OverflowError
| AttributeError
| SocketTimeout
| FileNotFoundError
| PermissionError
| IsADirectoryError
| OSError (msg : string)
| OtherError (name : string).

Inductive result (A : Type) : Type :=
| Ok (a : A)
| Raise (e : exn).
Arguments Ok {A} a.
Arguments Raise {A} e.

#[global] Instance exn_eq_dec : EqDecision exn.
Proof. solve_decision. Defined.

(** [except socket.timeout:] *)
Definition is_socket_timeout (e : exn) : bool :=
  match e with SocketTimeout => true | _ => false end.

(** ** Computations: state passing with exceptions *)

Definition M (S A : Type) : Type := S -> S * result A.

Definition ret {S A} (a : A) : M S A := fun s => (s, Ok a).

Definition raise {S A} (e : exn) : M S A := fun s => (s, Raise e).

Definition bind {S A B} (c : M S A) (k : A -> M S B) : M S B :=
  fun s =>
    match c s with
    | (s', Ok a) => k a s'
    | (s', Raise e) => (s', Raise e)
    end.

(** [try: body except Exception as e: handler]: the effects the body had
    before it raised are kept. *)
Definition try_except {S A} (body : M S A) (handler : exn -> M S A) : M S A :=
  fun s =>
    match body s with
    | (s', Ok a) => (s', Ok a)
    | (s', Raise e) => handler e s'
    end.

Definition get {S} : M S S := fun s => (s, Ok s).
Definition modify {S} (f : S -> S) : M S unit := fun s => (f s, Ok tt).

Declare Scope py_scope.
Delimit Scope py_scope with py.
Notation "x <- c ;; k" := (bind c (fun x => k))
  (at level 100, c at next level, right associativity) : py_scope.
Notation "c ;; k" := (bind c (fun _ => k))
  (at level 100, right associativity) : py_scope.
Local Open Scope py_scope.

(** ** The file system *)

Abbreviation bytes := (list byte).

(** [pathlib.Path] as the list of its components; [Path(p, 'name')] appends
    a component. *)
Abbreviation Path := (list string).

Definition Path_join (p : Path) (name : string) : Path := p ++ [name].

(** [str(path)] *)
Definition Path_str (p : Path) : string :=
  String.concat "" (map (String.append "/") p).

(** A file or directory carries what the process may do with it: a
    directory that is not writable admits neither the creation nor the
    removal of an entry.  Every directory can be searched. *)
Inductive Node : Type :=
| Dir (writable : bool)
| File (readable writable : bool) (data : bytes).

(** [path.parent] *)
Definition Path_parent (p : Path) : Path := removelast p.

(** Looking a path up, innermost component first: every ancestor has to be
    a directory. *)
Fixpoint resolve (fs : gmap Path Node) (rp : Path) : option Node :=
  match rp with
  | [] => fs !! ([] : Path)
  | _ :: parent =>
      match resolve fs parent with
      | Some (Dir _) => fs !! rev rp
      | _ => None
      end
  end.

Definition stat (fs : gmap Path Node) (p : Path) : option Node :=
  resolve fs (rev p).

(** [Path.is_dir()] *)
Definition is_dir (fs : gmap Path Node) (p : Path) : bool :=
  match stat fs p with Some (Dir _) => true | _ => false end.

(** [Path.exists()] *)
Definition exists_ (fs : gmap Path Node) (p : Path) : bool :=
  match stat fs p with Some _ => true | None => false end.

(** [open(p).read()] of the bytes of the file. *)
Definition fs_read (fs : gmap Path Node) (p : Path) : result bytes :=
  match stat fs p with
  | Some (File true _ data) => Ok data
  | Some (File false _ _) => Raise PermissionError
  | Some (Dir _) => Raise IsADirectoryError
  | None => Raise FileNotFoundError
  end.

(** [open(p, 'w')] / [open(p, 'wb')]: truncates an existing file that is
    writable, creates a missing one in an existing directory that is
    writable. *)
Definition fs_open_w (fs : gmap Path Node) (p : Path) : result (gmap Path Node) :=
  match stat fs p with
  | Some (File r true _) => Ok (<[p := File r true []]> fs)
  | Some (File _ false _) => Raise PermissionError
  | Some (Dir _) => Raise IsADirectoryError
  | None =>
      match p with
      | [] => Raise FileNotFoundError
      | _ :: _ =>
          match stat fs (Path_parent p) with
          | Some (Dir true) => Ok (<[p := File true true []]> fs)
          | Some (Dir false) => Raise PermissionError
          | _ => Raise FileNotFoundError
          end
      end
  end.

(** [outfile.write(data)] on a file opened for writing: appends. *)
Definition append_data (data : bytes) (n : Node) : Node :=
  match n with
  | Dir w => Dir w
  | File r w old => File r w (old ++ data)
  end.

Definition fs_write (fs : gmap Path Node) (p : Path) (data : bytes) : gmap Path Node :=
  alter (append_data data) p fs.

(** [os.unlink(p)]: removes the entry of a file from a directory that is
    writable. *)
Definition fs_unlink (fs : gmap Path Node) (p : Path) : result (gmap Path Node) :=
  match stat fs p with
  | Some (File _ _ _) =>
      match p, stat fs (Path_parent p) with
      | _ :: _, Some (Dir true) => Ok (delete p fs)
      | _, _ => Raise PermissionError
      end
  | Some (Dir _) => Raise IsADirectoryError
  | None => Raise FileNotFoundError
  end.

(** The bytes of a regular file, whatever its permissions. *)
Definition file_data (fs : gmap Path Node) (p : Path) : option bytes :=
  match stat fs p with
  | Some (File _ _ data) => Some data
  | _ => None
  end.

(** ** The world *)

(** Modelled from the spec: [bacommon.assets.AssetPackageFlavor] is not part
    of this module; the spec only says that the flavor is an enum.  A member
    is represented by its name. *)
Definition AssetPackageFlavor : Type := string.

(** What reaches stdout and the log.  Formatted lines keep the values they
    are formatted from. *)
Inductive Out : Type :=
| Printed (line : string)
| WouldGather (packages : list string) (flavor : AssetPackageFlavor)
    (account_token : string)
| Downloading (filename : Path) (file_size : Z)
| Status (file_size_dl : Z) (percent : Q)
| LogException (msg : string) (e : exn).

Record World : Type := mkWorld {
  fs : gmap Path Node;
  out : list Out;          (* oldest first *)
  net_reads : nat;         (* calls of [ureq.read] issued so far *)
  slept : Z                (* seconds spent in [time.sleep] *)
}.

Definition set_fs (f : gmap Path Node) (w : World) : World :=
  mkWorld f (out w) (net_reads w) (slept w).

Definition set_out (o : list Out) (w : World) : World :=
  mkWorld (fs w) o (net_reads w) (slept w).

Definition emit (o : Out) : M World unit :=
  modify (fun w => set_out (out w ++ [o]) w).

(** [print(line)] and [sys.stdout.write(line)] *)
Definition print (line : string) : M World unit := emit (Printed line).

(** [logging.exception(msg)] inside an [except] block *)
Definition logging_exception (msg : string) (e : exn) : M World unit :=
  emit (LogException msg e).

(** [time.sleep(seconds)] *)
Definition time_sleep (seconds : Z) : M World unit :=
  modify (fun w => mkWorld (fs w) (out w) (net_reads w) (slept w + seconds)).

(** A file-system call that may fail. *)
Definition fs_try (op : gmap Path Node -> result (gmap Path Node)) : M World unit :=
  fun w =>
    match op (fs w) with
    | Ok f => (set_fs f w, Ok tt)
    | Raise e => (w, Raise e)
    end.

Definition of_result {S A} (r : result A) : M S A := fun s => (s, r).

(** ** Python's [int] on a header value *)

(** The characters [int] strips from both ends of a string, among those a
    header can hold (latin-1): tab to carriage return, the space, and the
    two that are white space beyond ASCII.  The separators 28 to 31 are not
    among them. *)
Definition is_space (c : ascii) : bool :=
  let n := nat_of_ascii c in
  ((9 <=? n) && (n <=? 13) || (n =? 32) || (n =? 133) || (n =? 160))%nat.

Fixpoint lstrip (l : list ascii) : list ascii :=
  match l with
  | c :: l' => if is_space c then lstrip l' else l
  | [] => []
  end.

Definition strip (l : list ascii) : list ascii :=
  rev (lstrip (rev (lstrip l))).

Definition digit_val (c : ascii) : option Z :=
  let n := nat_of_ascii c in
  if ((48 <=? n) && (n <=? 57))%nat then Some (Z.of_nat n - 48) else None.

(** Decimal digits, single underscores allowed between two digits. *)
Fixpoint digits (acc : Z) (after_digit : bool) (l : list ascii) : option Z :=
  match l with
  | [] => if after_digit then Some acc else None
  | c :: l' =>
      if Ascii.eqb c "_"%char
      then (if after_digit then digits acc false l' else None)
      else match digit_val c with
           | Some d => digits (10 * acc + d) true l'
           | None => None
           end
  end.

(** [sys.int_info.default_max_str_digits]: [int] refuses a string with more
    digits than this. *)
Definition max_str_digits : nat := 4300.

Definition count_digits (l : list ascii) : nat :=
  length (List.filter (fun c => match digit_val c with Some _ => true | None => false end) l).

(** The digits of a number, within the limit on their count. *)
Definition number (l : list ascii) : option Z :=
  if (max_str_digits <? count_digits l)%nat then None else digits 0 false l.

(** [int(s)] for a string [s]: [None] stands for [ValueError]. *)
Definition py_int (s : string) : option Z :=
  match strip (list_ascii_of_string s) with
  | c :: l =>
      if Ascii.eqb c "-"%char then Z.opp <$> number l
      else if Ascii.eqb c "+"%char then number l
      else number (c :: l)
  | [] => None
  end.

(** [int(x)] where [x] is what [headers[name]] gave: [None] for a header
    that is absent. *)
Definition int (x : option string) : result Z :=
  match x with
  | None => Raise TypeError
  | Some s =>
      match py_int s with
      | Some z => Ok z
      | None => Raise ValueError
      end
  end.

(** ** The data model *)

(** [class FileValue(entity.CompoundValue)]: no fields. *)
Inductive FileValue : Type := mkFileValue.

(** [class State(entity.Entity)] *)
Record State : Type := mkState {
  files : gmap string FileValue
}.

(** [State()] *)
Definition State_default : State := mkState ∅.

(** The record codec of [efro.entity], which this module only calls.
    Decoding may raise. *)
Class Codec : Type := {
  to_json_str : State -> string;
  from_json_str : string -> result State
}.

(** [weakref.ref(obj)]: a reference that does not keep its referent alive.
    Nothing in the module ever calls one, so what a call would answer is
    not modelled. *)
Record weakref (A : Type) : Type := weakref_ref {
  referent : A
}.
Arguments weakref_ref {A} referent.
Arguments referent {A} w.

(** The attributes of an [AssetManager].  [_state] is bound by
    [load_state] only. *)
Record AssetManager : Type := mkAssetManager {
  _rootdir : Path;
  _shutting_down : bool;
  _state : option State
}.

Record AssetGather : Type := mkAssetGather {
  _manager : weakref AssetManager;
  _valid : bool
}.

(** ** The network *)

(** An opened url: the value of the [Content-Length] header, if present, and
    what the socket has for the successive calls of [read]: a block of
    bytes (empty at the end of the stream), a timeout or another exception;
    once the list is used up the socket gives the empty block.  What a call
    of [read] then returns is [ureq_read] below. *)
Record Response : Type := mkResponse {
  Content_Length : option string;
  body : list (result bytes)
}.

(** [urllib.request.urlopen(url, None, 1)] *)
Record Env : Type := mkEnv {
  urlopen : string -> result Response
}.

(** The socket times out on this read. *)
Definition is_timeout (read : result bytes) : bool :=
  match read with
  | Raise e => is_socket_timeout e
  | Ok _ => false
  end.

(** [ureq.read(block_sz)]: what the socket gives, unless an earlier read of
    the response timed out; the reader of a socket refuses every read
    after a timeout. *)
Definition ureq_read (timed_out : bool) (from_socket : result bytes)
  : result bytes :=
  if timed_out then Raise (OSError "cannot read from timed out object")
  else from_socket.

(** ** class AssetManager *)

(** A method runs on its object and the world. *)
Abbreviation Meth A := (M (AssetManager * World) A).

Definition liftW {A} (c : M World A) : Meth A :=
  fun s =>
    match c (snd s) with
    | (w', r) => ((fst s, w'), r)
    end.

Definition get_self : Meth AssetManager := fun s => (s, Ok (fst s)).

Definition get_world : Meth World := fun s => (s, Ok (snd s)).

Definition set_shutting_down (b : bool) : Meth unit :=
  modify (fun s => (mkAssetManager (_rootdir (fst s)) b (_state (fst s)), snd s)).

Definition set_state (st : State) : Meth unit :=
  modify (fun s =>
    (mkAssetManager (_rootdir (fst s)) (_shutting_down (fst s)) (Some st), snd s)).

(** [self._state]: unbound until [load_state] has run. *)
Definition get_state : Meth State :=
  self <- get_self ;;
  match _state self with
  | Some st => ret st
  | None => raise AttributeError
  end.

Definition rootdir (self : AssetManager) : Path := _rootdir self.

Definition state_path (self : AssetManager) : Path :=
  Path_join (_rootdir self) "state".

(** [with open(path) as infile: infile.read()] *)
Definition read_text (path : Path) : M World string :=
  w <- get ;;
  data <- of_result (fs_read (fs w) path) ;;
  ret (string_of_list_byte data).

(** [outfile.write(text)] *)
Definition write_data (path : Path) (data : bytes) : M World unit :=
  modify (fun w => set_fs (fs_write (fs w) path data) w).

Section WithCodec.
Context `{Codec}.

(** The [return] in the [try] block skips the final assignment: the block
    tells whether it returned. *)
Definition load_state : Meth unit :=
  liftW (print "AMAN LOADING STATE") ;;
  returned <-
    try_except
      (self <- get_self ;;
       let state_path' := state_path self in
       w <- get_world ;;
       if exists_ (fs w) state_path' then
         text <- liftW (read_text (state_path self)) ;;
         st <- of_result (from_json_str text) ;;
         set_state st ;;
         ret true
       else ret false)
      (fun e =>
         liftW (logging_exception "Error loading existing AssetManager state" e) ;;
         ret false) ;;
  if (returned : bool) then ret tt else set_state State_default.

Definition save_state : Meth unit :=
  liftW (print "AMAN SAVING STATE") ;;
  try_except
    (self <- get_self ;;
     liftW (fs_try (fun f => fs_open_w f (state_path self))) ;;
     st <- get_state ;;
     liftW (write_data (state_path self) (list_byte_of_string (to_json_str st))))
    (fun e => liftW (logging_exception "Error writing AssetManager state" e)).

Definition update : Meth unit :=
  self <- get_self ;;
  if _shutting_down self then save_state else ret tt.

(** [__init__]: runs on the object as its first two assignments make it;
    [assert isinstance(rootdir, Path)] holds by typing. *)
Definition AssetManager_init (rootdir : Path) (w : World)
  : (AssetManager * World) * result unit :=
  (liftW (print "AssetManager()") ;;
   self <- get_self ;;
   w <- get_world ;;
   (if negb (is_dir (fs w) (_rootdir self))
    then raise (RuntimeError
                  ("Provided rootdir does not exist: " +:+ Path_str rootdir))
    else ret tt) ;;
   load_state)
    (mkAssetManager rootdir false None, w).

(** [__del__] *)
Definition AssetManager_del : Meth unit :=
  set_shutting_down true ;;
  update ;;
  liftW (print "~AssetManager()").

(** The expression [AssetManager(rootdir)]: when [__init__] raises, nothing
    refers to the half-built object any more and it is finalized. *)
Definition AssetManager_new (rootdir : Path) : M World AssetManager :=
  fun w =>
    match AssetManager_init rootdir w with
    | ((self, w'), Ok _) => (w', Ok self)
    | (s', Raise e) => (snd (fst (AssetManager_del s')), Raise e)
    end.

End WithCodec.

(** ** fetch_url *)

(** The variables of the loop. *)
Record Loop : Type := mkLoop {
  file_size_dl : Z;
  time_outs : Z
}.

Inductive Next : Type :=
| Continue (l : Loop)
| Break.

Definition count_read : M World unit :=
  modify (fun w => mkWorld (fs w) (out w) (S (net_reads w)) (slept w)).

(** The most one read asks for.  The blocks of a [Response] are not
    required to respect it: the properties hold for blocks of any size. *)
Definition block_sz : Z := 1024 * 100 * 2.

(** The least magnitude of an integer that has no float: halfway between
    the largest float and 2^1024. *)
Definition float_limit : Z := 2 ^ 1024 - 2 ^ 970.

(** The integer converts to a float. *)
Definition fits_float (z : Z) : bool := (Z.abs z <? float_limit)%Z.

(** [file_size_dl * 1.0 / file_size]: both integers are converted to
    floats, in this order, and the division refuses a zero divisor.  The
    quotient is kept exact instead of rounded to a float. *)
Definition percent_of (file_size_dl file_size : Z) : M World Q :=
  if negb (fits_float file_size_dl) then raise OverflowError
  else if negb (fits_float file_size) then raise OverflowError
  else if (file_size =? 0)%Z then raise ZeroDivisionError
  else ret (inject_Z file_size_dl / inject_Z file_size)%Q.

(** One turn of [while True:], given what [ureq.read(block_sz)] does. *)
Definition loop_body (filename : Path) (file_size : Z) (read : result bytes)
    (l : Loop) : M World Next :=
  count_read ;;
  match read with
  | Raise e =>
      if is_socket_timeout e then
        if (3 <? time_outs l)%Z then
          print "sorry -- try back later" ;;
          fs_try (fun f => fs_unlink f filename) ;;
          raise e
        else
          print "Hmmm... little issue... I'll wait a couple of seconds" ;;
          time_sleep 3 ;;
          ret (Continue (mkLoop (file_size_dl l) (time_outs l + 1)))
      else raise e
  | Ok [] =>
      print "Done!" ;;
      ret Break
  | Ok data =>
      let file_size_dl := file_size_dl l + Z.of_nat (length data) in
      write_data filename data ;;
      percent <- percent_of file_size_dl file_size ;;
      emit (Status file_size_dl percent) ;;
      ret (Continue (mkLoop file_size_dl (time_outs l)))
  end.

(** [while True:] on what the socket has for the reads to come;
    [timed_out] tells whether a read of the response has timed out. *)
Fixpoint while_true (filename : Path) (file_size : Z) (timed_out : bool)
    (socket : list (result bytes)) (l : Loop) : M World unit :=
  match socket with
  | [] =>
      loop_body filename file_size (ureq_read timed_out (Ok [])) l ;;
      ret tt
  | read :: socket' =>
      next <- loop_body filename file_size (ureq_read timed_out read) l ;;
      match next with
      | Continue l' =>
          while_true filename file_size (timed_out || is_timeout read)
            socket' l'
      | Break => ret tt
      end
  end.

Definition fetch_url (env : Env) (url : string) (filename : Path)
    (asset_gather : AssetGather) : M World unit :=
  let weak_gather := weakref_ref asset_gather in
  ureq <- of_result (urlopen env url) ;;
  file_size <- of_result (int (Content_Length ureq)) ;;
  emit (Downloading filename file_size) ;;
  fs_try (fun f => fs_open_w f filename) ;;
  while_true filename file_size false (body ureq) (mkLoop 0 0).

(** ** class AssetGather *)

Definition testdl_url : string :=
  "http://www.python.org/ftp/python/2.7.3/Python-2.7.3.tgz".

Definition AssetGather_init (env : Env) (manager : AssetManager)
  : M World AssetGather :=
  let self := mkAssetGather (weakref_ref manager) true in
  print "AssetGather()" ;;
  fetch_url env testdl_url (Path_join (rootdir manager) "testdl") self ;;
  print "fetch success" ;;
  ret self.

Definition valid (self : AssetGather) : bool := true.

Definition AssetGather_del : M World unit := print "~AssetGather()".

(** [AssetManager.launch_gather] *)
Definition launch_gather (env : Env) (self : AssetManager)
    (packages : list string) (flavor : AssetPackageFlavor)
    (account_token : string) : M World AssetGather :=
  emit (WouldGather packages flavor account_token) ;;
  AssetGather_init env self.

(** ** A record codec to run the model with *)

Definition dquote : ascii := "034"%char.
Definition backslash : ascii := "092"%char.

Fixpoint escape (l : list ascii) : list ascii :=
  match l with
  | [] => []
  | c :: l' =>
      if Ascii.eqb c dquote || Ascii.eqb c backslash
      then backslash :: c :: escape l'
      else c :: escape l'
  end.

Definition encode_key (k : string) : list ascii :=
  dquote :: escape (list_ascii_of_string k)
    ++ dquote :: list_ascii_of_string ":{}".

Fixpoint join_keys (ks : list string) : list ascii :=
  match ks with
  | [] => []
  | [k] => encode_key k
  | k :: ks' => encode_key k ++ ","%char :: join_keys ks'
  end.

Definition encode_state (st : State) : string :=
  string_of_list_ascii
    ("{"%char :: join_keys (fst <$> map_to_list (files st)) ++ ["}"%char]).

(** The characters of a key up to its closing quote, and what follows. *)
Fixpoint parse_key (l acc : list ascii) : option (string * list ascii) :=
  match l with
  | [] => None
  | c :: l' =>
      if Ascii.eqb c dquote then Some (string_of_list_ascii (rev acc), l')
      else if Ascii.eqb c backslash then
        match l' with
        | d :: l'' => parse_key l'' (d :: acc)
        | [] => None
        end
      else parse_key l' (c :: acc)
  end.

Fixpoint parse_entries (fuel : nat) (l : list ascii)
    (m : gmap string FileValue) : option State :=
  match fuel, l with
  | S fuel', q :: l1 =>
      if Ascii.eqb q dquote then
        match parse_key l1 [] with
        | Some (k, c1 :: c2 :: c3 :: c4 :: rest) =>
            if Ascii.eqb c1 ":" && Ascii.eqb c2 "{" && Ascii.eqb c3 "}" then
              if Ascii.eqb c4 "}" then
                match rest with
                | [] => Some (mkState (<[k := mkFileValue]> m))
                | _ => None
                end
              else if Ascii.eqb c4 "," then
                parse_entries fuel' rest (<[k := mkFileValue]> m)
              else None
            else None
        | _ => None
        end
      else None
  | _, _ => None
  end.

Definition decode_state (s : string) : result State :=
  match list_ascii_of_string s with
  | [o; c] =>
      if Ascii.eqb o "{" && Ascii.eqb c "}" then Ok State_default
      else Raise ValueError
  | o :: l =>
      if Ascii.eqb o "{" then
        match parse_entries (length l) l ∅ with
        | Some st => Ok st
        | None => Raise ValueError
        end
      else Raise ValueError
  | [] => Raise ValueError
  end.

(** Modelled from the spec: the record codec ([efro.entity]'s
    [to_json_str] and [from_json_str]) is not part of this module and the
    spec fixes only its interface, [encode(State) -> text] and
    [decode(text) -> State | failure].  This instance writes a State as a
    JSON object with one empty object per file identifier. *)
Definition json_codec : Codec :=
  {| to_json_str := encode_state; from_json_str := decode_state |}.

(** ** Notions the properties are stated with *)

(** The progress line for [n] bytes received out of [file_size]. *)
Definition status_of (file_size n : Z) : Out :=
  Status n (inject_Z n / inject_Z file_size)%Q.

(** The bytes in the first [k] chunks. *)
Definition received (chunks : list bytes) (k : nat) : Z :=
  Z.of_nat (length (concat (take k chunks))).

(** The stream is at its end: used up, or the next read returns the empty
    block. *)
Definition at_eof (stream : list (result bytes)) : bool :=
  match stream with
  | [] | Ok [] :: _ => true
  | _ => false
  end.

(** Earlier output put in front of what a computation writes. *)
Definition frame (o : list Out) (w : World) : World :=
  set_out (o ++ out w) w.

(** The parent of [p] resolves to a directory (or [p] is the root). *)
Definition reachable (fs : gmap Path Node) (p : Path) : bool :=
  match rev p with
  | [] => true
  | _ :: parent =>
      match resolve fs parent with Some (Dir _) => true | _ => false end
  end.

(** A computation that does not look at the output written so far. *)
Definition framed {A} (c : M World A) : Prop :=
  forall o w, c (frame o w) = (frame o (fst (c w)), snd (c w)).

(** A computation that changes no entry of the disk other than that of
    [p]. *)
Definition touches_only {A} (p : Path) (c : M World A) : Prop :=
  forall (w : World) (k : Path), k <> p -> fs (fst (c w)) !! k = fs w !! k.

(** Where the loop stands at the top of a turn: the state of the reader,
    what the socket has for the reads to come, the variables of the loop
    and the world. *)
Record Config : Type := mkConfig {
  reader_timed_out : bool;
  socket : list (result bytes);
  vars : Loop;
  world : World
}.

(** [running c c']: the loop started at [c] comes to the top of a turn
    at [c']. *)
Inductive running (filename : Path) (file_size : Z) : Config -> Config -> Prop :=
| running_here c : running filename file_size c c
| running_turn timed_out read rest l w l' w' c' :
    loop_body filename file_size (ureq_read timed_out read) l w
    = (w', Ok (Continue l')) ->
    running filename file_size
      (mkConfig (timed_out || is_timeout read) rest l' w') c' ->
    running filename file_size (mkConfig timed_out (read :: rest) l w) c'.

(** ** Sample data *)

Definition ex_root : Path := ["assets"].

(** A disk with the writable directory [/assets] and nothing in it. *)
Definition ex_fs : gmap Path Node :=
  <[ex_root := Dir true]> (<[[] := Dir true]> ∅).

Definition ex_world : World := mkWorld ex_fs [] 0 0.

Definition ex_state : State :=
  mkState (<["bg.png" := mkFileValue]> (<["hit.ogg" := mkFileValue]> ∅)).

Definition ex_manager : AssetManager :=
  mkAssetManager ex_root false (Some ex_state).

Definition ex_gather : AssetGather :=
  mkAssetGather (weakref_ref ex_manager) true.

Definition ex_target : Path := ["assets"; "testdl"].

(** Every url opens on [ureq]. *)
Definition ex_env (ureq : Response) : Env := mkEnv (fun _ => Ok ureq).

Definition timeout : result bytes := Raise SocketTimeout.

Definition ex_chunks : list bytes :=
  [list_byte_of_string "abc"; list_byte_of_string "def"].

(** Two chunks, then the end of the stream; the declared size matches. *)
Definition ex_two_chunks : Response :=
  mkResponse (Some "6") (map Ok ex_chunks ++ [Ok []]).

(** The remote stalls: the socket times out on every read. *)
Definition ex_stalled : Response :=
  mkResponse (Some "6") (repeat timeout 5).

(** The remote stalls after the first chunk. *)
Definition ex_stalls_late : Response :=
  mkResponse (Some "6") (Ok (list_byte_of_string "abc") :: repeat timeout 5).

(** The connection breaks after two chunks. *)
Definition ex_broken : Response :=
  mkResponse (Some "9")
    (map Ok ex_chunks ++ [Raise (OtherError "ConnectionResetError"); Ok []]).

(** A declared size of zero in front of a body that is not empty. *)
Definition ex_zero_size : Response :=
  mkResponse (Some "0") [Ok (list_byte_of_string "abc"); Ok []].

Definition ex_no_size : Response :=
  mkResponse None [Ok (list_byte_of_string "abc"); Ok []].

Definition ex_bad_size : Response :=
  mkResponse (Some "6 bytes") [Ok (list_byte_of_string "abc"); Ok []].

(** The disk of [ex_fs] with a state file holding [ex_state]. *)
Definition ex_fs_saved : gmap Path Node :=
  <[["assets"; "state"] :=
      File true true (list_byte_of_string (encode_state ex_state))]> ex_fs.

(** A disk whose state file cannot be decoded. *)
Definition ex_fs_corrupt : gmap Path Node :=
  <[["assets"; "state"] := File true true (list_byte_of_string "{oops")]> ex_fs.

(** A disk where a directory sits in the place of the state file. *)
Definition ex_fs_state_dir : gmap Path Node :=
  <[["assets"; "state"] := Dir true]> ex_fs.

(** The progress ratio can be computed for every chunk: nothing is asked
    when there is no chunk; otherwise the declared size is not zero and it
    and the bytes received convert to floats. *)
Definition ratio_defined (file_size : Z) (chunks : list bytes) : Prop :=
  chunks = []
  \/ (file_size <> 0 /\ fits_float file_size = true
      /\ fits_float (received chunks (length chunks)) = true).

(** * Properties *)

(** ** The file system *)

Section FileSystem.
Implicit Types (fs : gmap Path Node) (p q : Path) (x : Node).

Lemma stat_reachable fs p :
  stat fs p = if reachable fs p then fs !! p else None.
Proof.
  unfold stat, reachable. destruct (rev p) as [|n rq] eqn:E.
  - apply (f_equal (@rev string)) in E. rewrite rev_involutive in E.
    now subst p.
  - assert (Hp : rev (n :: rq) = p) by (now rewrite <- E, rev_involutive).
    simpl in *. rewrite Hp.
    now destruct (resolve fs rq) as [[]|].
Qed.

Lemma resolve_agree fs fs' (rp : Path) :
  (forall k : Path, (length k <= length rp)%nat -> fs !! k = fs' !! k) ->
  resolve fs rp = resolve fs' rp.
Proof.
  induction rp as [|n rp IH]; intros Hk; simpl.
  - apply Hk. simpl. lia.
  - rewrite IH by (intros k Hlen; apply Hk; simpl; lia).
    rewrite (Hk (rev rp ++ [n])); [reflexivity|].
    rewrite length_app, length_rev. simpl. lia.
Qed.

(** Changing the entry of [p] leaves the way to [p] as it was. *)
Lemma reachable_agree fs fs' p :
  (forall k : Path, k <> p -> fs !! k = fs' !! k) ->
  reachable fs p = reachable fs' p.
Proof.
  intros Hk. unfold reachable. destruct (rev p) as [|n rq] eqn:E; [done|].
  rewrite (resolve_agree fs fs' rq); [done|].
  intros k Hlen. apply Hk. intros ->.
  apply (f_equal (@length string)) in E. rewrite length_rev in E.
  simpl in E. lia.
Qed.

Lemma stat_snoc fs q (name : string) :
  stat fs (Path_join q name)
  = match stat fs q with Some (Dir _) => fs !! Path_join q name | _ => None end.
Proof.
  unfold stat, Path_join. rewrite rev_app_distr. simpl.
  now rewrite rev_involutive.
Qed.

Lemma Path_parent_join q (name : string) : Path_parent (Path_join q name) = q.
Proof. apply removelast_last. Qed.

Lemma stat_insert_eq fs p x :
  reachable fs p = true -> stat (<[p := x]> fs) p = Some x.
Proof.
  intros Hr. rewrite stat_reachable.
  rewrite <- (reachable_agree fs (<[p := x]> fs) p)
    by (intros k Hk; now rewrite lookup_insert_ne).
  rewrite Hr. apply lookup_insert_eq.
Qed.

Lemma stat_alter_eq fs p (g : Node -> Node) x :
  stat fs p = Some x -> stat (alter g p fs) p = Some (g x).
Proof.
  rewrite !stat_reachable.
  rewrite <- (reachable_agree fs (alter g p fs) p)
    by (intros k Hk; now rewrite lookup_alter_ne).
  destruct (reachable fs p); [|done].
  intros Hp. now rewrite lookup_alter_eq, Hp.
Qed.

Lemma stat_delete_eq fs p : stat (delete p fs) p = None.
Proof.
  rewrite stat_reachable, lookup_delete_eq. now destruct (reachable _ _).
Qed.

Lemma stat_Some_reachable fs p x : stat fs p = Some x -> reachable fs p = true.
Proof. rewrite stat_reachable. now destruct (reachable fs p). Qed.

Lemma is_dir_reachable fs q (name : string) :
  is_dir fs q = true -> reachable fs (Path_join q name) = true.
Proof.
  unfold is_dir, reachable, stat, Path_join. rewrite rev_app_distr. simpl.
  now destruct (resolve fs (rev q)) as [[]|].
Qed.

Lemma stat_Dir_reachable fs q (name : string) (wr : bool) :
  stat fs q = Some (Dir wr) -> reachable fs (Path_join q name) = true.
Proof.
  unfold reachable, stat, Path_join. rewrite rev_app_distr. simpl.
  now intros ->.
Qed.

(** What a successful [open(p, 'w')] leaves at [p]. *)
Lemma fs_open_w_Ok fs p f :
  fs_open_w fs p = Ok f ->
  exists r, f = <[p := File r true []]> fs /\ stat f p = Some (File r true []).
Proof.
  unfold fs_open_w. destruct (stat fs p) as [[|r [] d]|] eqn:Hs; try done.
  - intros [= <-]. exists r. split; [done|].
    apply stat_insert_eq. eauto using stat_Some_reachable.
  - destruct p as [|c p'] eqn:Ep; [done|]. rewrite <- Ep in *.
    destruct (stat fs (Path_parent p)) as [[[]|]|] eqn:Hd; try done.
    intros [= <-]. exists true. split; [done|].
    apply stat_insert_eq.
    assert (Hp : p <> []) by (subst p; done).
    destruct (exists_last Hp) as (q & name & ->).
    fold (Path_join q name) in *. rewrite Path_parent_join in Hd.
    eauto using stat_Dir_reachable.
Qed.

(** A way that does not lead through a directory admits no [open]. *)
Lemma fs_open_w_not_dir fs q (name : string) :
  is_dir fs q = false -> exists e, fs_open_w fs (Path_join q name) = Raise e.
Proof.
  intros Hd. unfold fs_open_w. rewrite stat_snoc.
  unfold is_dir in Hd.
  assert (Hn : match stat fs q with
               | Some (Dir _) => fs !! Path_join q name
               | _ => None
               end = None) by (now destruct (stat fs q) as [[]|]).
  rewrite Hn, Path_parent_join.
  destruct (Path_join q name); [eauto|].
  destruct (stat fs q) as [[]|]; eauto; done.
Qed.

(** Neither does a directory that is not writable admit the creation of a
    file. *)
Lemma fs_open_w_read_only_dir fs q (name : string) :
  stat fs q = Some (Dir false) ->
  stat fs (Path_join q name) = None ->
  fs_open_w fs (Path_join q name) = Raise PermissionError.
Proof.
  intros Hd Hn. unfold fs_open_w. rewrite Hn, Path_parent_join, Hd.
  unfold Path_join. now destruct (q ++ [name]) eqn:E;
    [apply app_eq_nil in E as [_ ?]|].
Qed.

End FileSystem.

(** ** AssetManager: construction, loading, saving, teardown *)

Ltac run_py :=
  unfold AssetManager_new, AssetManager_init, AssetManager_del, update,
    save_state, load_state, get_state, set_state, set_shutting_down,
    read_text, write_data, liftW, get_self, get_world, print,
    logging_exception, emit, fs_try, of_result, try_except, bind, ret, raise,
    get, modify;
  simpl.

Section Manager.
Context `{Codec}.
Implicit Types (self : AssetManager) (w : World) (st : State).

(** [save_state] never raises and leaves the object as it is. *)
Lemma save_state_total self w :
  exists w', save_state (self, w) = ((self, w'), Ok tt).
Proof.
  run_py. destruct (fs_open_w (fs w) (state_path self)); simpl; [|eauto].
  destruct (_state self); simpl; eauto.
Qed.

(** A save whose [open] fails writes nothing. *)
Lemma save_state_open_fails self w e :
  fs_open_w (fs w) (state_path self) = Raise e ->
  fs (snd (fst (save_state (self, w)))) = fs w.
Proof. intros Ho. run_py. now rewrite Ho. Qed.

(** What a save whose [open] fails leaves behind: two lines of output. *)
Lemma save_state_open_logs self w e :
  fs_open_w (fs w) (state_path self) = Raise e ->
  save_state (self, w)
  = ((self,
      set_out (out w
               ++ [Printed "AMAN SAVING STATE";
                   LogException "Error writing AssetManager state" e]) w),
     Ok tt).
Proof.
  intros Ho. run_py. rewrite Ho. simpl. unfold set_out. simpl.
  now rewrite <- app_assoc.
Qed.

(** A save whose [open] succeeds leaves the encoded state in the file. *)
Lemma save_state_writes self w st f :
  _state self = Some st ->
  fs_open_w (fs w) (state_path self) = Ok f ->
  exists r w',
    save_state (self, w) = ((self, w'), Ok tt)
    /\ stat (fs w') (state_path self)
       = Some (File r true (list_byte_of_string (to_json_str st)))
    /\ stat f (state_path self) = Some (File r true []).
Proof.
  intros Hst Ho. run_py. rewrite Ho. simpl. rewrite Hst. simpl.
  destruct (fs_open_w_Ok _ _ _ Ho) as (r & -> & Hs).
  exists r. eexists. split; [reflexivity|]. simpl. split; [|done].
  unfold fs_write. now rewrite (stat_alter_eq _ _ _ _ Hs).
Qed.

(** [load_state] by cases on what the state file holds. *)
Lemma load_state_cases self w :
  exists st w',
    load_state (self, w)
    = ((mkAssetManager (_rootdir self) (_shutting_down self) (Some st), w'),
       Ok tt)
    /\ fs w' = fs w
    /\ (exists_ (fs w) (state_path self) = false -> st = State_default)
    /\ (forall e, fs_read (fs w) (state_path self) = Raise e ->
        st = State_default)
    /\ (forall data e,
          fs_read (fs w) (state_path self) = Ok data ->
          from_json_str (string_of_list_byte data) = Raise e ->
          st = State_default)
    /\ (forall data st',
          fs_read (fs w) (state_path self) = Ok data ->
          from_json_str (string_of_list_byte data) = Ok st' ->
          st = st').
Proof.
  run_py.
  destruct (exists_ (fs w) (state_path self)) eqn:He; simpl.
  - destruct (fs_read (fs w) (state_path self)) as [data|e] eqn:Hr; simpl.
    + destruct (from_json_str (string_of_list_byte data)) as [st'|e] eqn:Hd;
        simpl; eexists _, _; (split; [reflexivity|]); simpl;
        repeat split; congruence.
    + eexists _, _; (split; [reflexivity|]); simpl; repeat split; congruence.
  - assert (Hr : fs_read (fs w) (state_path self) = Raise FileNotFoundError).
    { unfold exists_ in He. unfold fs_read.
      now destruct (stat (fs w) (state_path self)). }
    eexists _, _; (split; [reflexivity|]); simpl; repeat split; congruence.
Qed.

(** C6: [load_state] never raises to its caller.  It always returns
    normally with [_state] bound and the disk untouched: the state is the
    default [State()] when the state file is missing, when reading it raises
    and when decoding it raises, and it is the decoded State when reading
    and decoding succeed. *)
Theorem load_state_never_raises self w :
  exists st w',
    load_state (self, w)
    = ((mkAssetManager (_rootdir self) (_shutting_down self) (Some st), w'),
       Ok tt)
    /\ fs w' = fs w
    /\ (exists_ (fs w) (state_path self) = false -> st = State_default)
    /\ (forall e, fs_read (fs w) (state_path self) = Raise e ->
        st = State_default)
    /\ (forall data e,
          fs_read (fs w) (state_path self) = Ok data ->
          from_json_str (string_of_list_byte data) = Raise e ->
          st = State_default)
    /\ (forall data st',
          fs_read (fs w) (state_path self) = Ok data ->
          from_json_str (string_of_list_byte data) = Ok st' ->
          st = st').
Proof. exact (load_state_cases self w). Qed.

(** C7: saving a State and then loading the same path gives the State
    back, provided the write and the read succeed (the state file can be
    opened for writing, and read once written) and the codec decodes what
    it encoded for this State. *)
Theorem save_then_load_roundtrip self self' w st f :
  _state self = Some st ->
  _rootdir self' = _rootdir self ->
  fs_open_w (fs w) (state_path self) = Ok f ->
  fs_read f (state_path self) = Ok [] ->
  from_json_str (to_json_str st) = Ok st ->
  exists w1 w2,
    save_state (self, w) = ((self, w1), Ok tt)
    /\ load_state (self', w1)
       = ((mkAssetManager (_rootdir self') (_shutting_down self') (Some st),
           w2), Ok tt).
Proof.
  intros Hst Hroot Ho Hread Hcodec.
  destruct (save_state_writes self w st f Hst Ho) as (r & w1 & Hsave & Hs1 & Hf).
  assert (r = true) as ->.
  { unfold fs_read in Hread. rewrite Hf in Hread. now destruct r. }
  destruct (load_state_cases self' w1) as (st0 & w2 & Hload & _ & _ & _ & _ & Hok).
  assert (Hp : state_path self' = state_path self)
    by (unfold state_path; now rewrite Hroot).
  rewrite Hp in Hok.
  rewrite (Hok (list_byte_of_string (to_json_str st)) st) in Hload.
  - eauto.
  - unfold fs_read. now rewrite Hs1.
  - now rewrite string_of_list_byte_of_string.
Qed.



End Manager.

(** ** fetch_url: the steps of the loop *)

Lemma fits_float_between (a b : Z) :
  0 <= a <= b -> fits_float b = true -> fits_float a = true.
Proof. unfold fits_float. rewrite !Z.ltb_lt. lia. Qed.

Section Loop.
Variables (filename : Path) (file_size : Z).
Implicit Types (l : Loop) (w : World) (data : bytes).

Lemma loop_body_data data l w :
  data <> [] -> file_size <> 0 ->
  fits_float file_size = true ->
  fits_float (file_size_dl l + Z.of_nat (length data)) = true ->
  loop_body filename file_size (Ok data) l w
  = (mkWorld (fs_write (fs w) filename data)
       (out w ++ [status_of file_size (file_size_dl l + Z.of_nat (length data))])
       (S (net_reads w)) (slept w),
     Ok (Continue (mkLoop (file_size_dl l + Z.of_nat (length data))
                     (time_outs l)))).
Proof.
  intros Hd Hz Hf Hdl. destruct data as [|b data]; [done|].
  unfold loop_body, percent_of, bind, count_read, write_data, emit, modify,
    ret, raise.
  apply Z.eqb_neq in Hz. now rewrite Hdl, Hf, Hz.
Qed.

Lemma loop_body_eof l w :
  loop_body filename file_size (Ok []) l w
  = (mkWorld (fs w) (out w ++ [Printed "Done!"]) (S (net_reads w)) (slept w),
     Ok Break).
Proof. reflexivity. Qed.

Lemma loop_body_retry l w :
  time_outs l <= 3 ->
  loop_body filename file_size (Raise SocketTimeout) l w
  = (mkWorld (fs w)
       (out w ++ [Printed "Hmmm... little issue... I'll wait a couple of seconds"])
       (S (net_reads w)) (slept w + 3),
     Ok (Continue (mkLoop (file_size_dl l) (time_outs l + 1)))).
Proof.
  intros Ht. unfold loop_body, bind, count_read, print, emit, time_sleep,
    modify, ret. simpl.
  apply Z.ltb_ge in Ht. now rewrite Ht.
Qed.

(** An exception that is not a timeout leaves the loop at once. *)
Lemma loop_body_error (e : exn) l w :
  is_socket_timeout e = false ->
  loop_body filename file_size (Raise e) l w
  = (mkWorld (fs w) (out w) (S (net_reads w)) (slept w), Raise e).
Proof.
  intros He. unfold loop_body, bind, count_read, modify, raise.
  now rewrite He.
Qed.

(** Writing is appending. *)
Lemma fs_write_nil (f : gmap Path Node) : fs_write f filename [] = f.
Proof.
  unfold fs_write. apply map_eq. intros k.
  destruct (decide (k = filename)) as [->|Hk].
  - rewrite lookup_alter_eq. destruct (f !! filename) as [[]|]; simpl; [done| |done].
    now rewrite app_nil_r.
  - now rewrite lookup_alter_ne.
Qed.

Lemma fs_write_app (f : gmap Path Node) (a b : bytes) :
  fs_write (fs_write f filename a) filename b = fs_write f filename (a ++ b).
Proof.
  unfold fs_write. apply map_eq. intros k.
  destruct (decide (k = filename)) as [->|Hk].
  - rewrite !lookup_alter_eq. destruct (f !! filename) as [[]|]; simpl; [done| |done].
    now rewrite app_assoc.
  - now rewrite !lookup_alter_ne.
Qed.

Lemma received_cons (c : bytes) chunks k :
  received (c :: chunks) (S k) = Z.of_nat (length c) + received chunks k.
Proof. unfold received. simpl. rewrite length_app. lia. Qed.

Lemma received_nonneg (chunks : list bytes) k : 0 <= received chunks k.
Proof. unfold received. lia. Qed.

(** Once a read has timed out, the next read ends the loop. *)
Lemma while_true_timed_out (socket : list (result bytes)) l w :
  while_true filename file_size true socket l w
  = (mkWorld (fs w) (out w) (S (net_reads w)) (slept w),
     Raise (OSError "cannot read from timed out object")).
Proof.
  destruct socket; simpl; unfold bind, ureq_read;
    now rewrite loop_body_error.
Qed.

(** The first timeout: one pause, one more read, and the loop is over. *)
Lemma while_true_timeout (rest : list (result bytes)) l w :
  time_outs l <= 3 ->
  while_true filename file_size false (Raise SocketTimeout :: rest) l w
  = (mkWorld (fs w)
       (out w ++ [Printed "Hmmm... little issue... I'll wait a couple of seconds"])
       (S (S (net_reads w))) (slept w + 3),
     Raise (OSError "cannot read from timed out object")).
Proof.
  intros Ht. simpl. unfold bind, ureq_read.
  rewrite (loop_body_retry l w Ht). simpl.
  now rewrite while_true_timed_out.
Qed.

Lemma while_true_at_eof (rest : list (result bytes)) l w :
  at_eof rest = true ->
  while_true filename file_size false rest l w
  = (mkWorld (fs w) (out w ++ [Printed "Done!"]) (S (net_reads w)) (slept w),
     Ok tt).
Proof.
  destruct rest as [|[[|]|] rest]; try done;
    intros _; simpl; unfold bind, ureq_read; now rewrite loop_body_eof.
Qed.

(** Blocks of data are consumed one after the other; [rest] is what the
    socket has after them. *)
Lemma while_true_blocks (chunks : list bytes) (rest : list (result bytes)) l w :
  Forall (fun c => c <> []) chunks ->
  (chunks = [] \/ file_size <> 0 /\ fits_float file_size = true) ->
  0 <= file_size_dl l ->
  fits_float (file_size_dl l + received chunks (length chunks)) = true ->
  while_true filename file_size false (map Ok chunks ++ rest) l w
  = while_true filename file_size false rest
      (mkLoop (file_size_dl l + received chunks (length chunks)) (time_outs l))
      (mkWorld (fs_write (fs w) filename (concat chunks))
         (out w
          ++ map (fun k => status_of file_size (file_size_dl l + received chunks k))
               (seq 1 (length chunks)))
         (net_reads w + length chunks) (slept w)).
Proof.
  intros Hne. revert l w.
  induction Hne as [|c chunks Hc Hne IH]; intros l w Hsz Hdl Hfit.
  - simpl. rewrite fs_write_nil, app_nil_r, Nat.add_0_r.
    unfold received. simpl. rewrite Z.add_0_r. now destruct l, w.
  - destruct Hsz as [|[Hz Hf]]; [done|].
    pose proof (received_nonneg chunks (length chunks)) as Hnn.
    simpl length in Hfit. rewrite received_cons in Hfit.
    simpl. unfold bind at 1, ureq_read.
    assert (Hpart : fits_float (file_size_dl l + Z.of_nat (length c)) = true).
    { apply (fits_float_between _
               (file_size_dl l
                + (Z.of_nat (length c) + received chunks (length chunks))));
        [lia|exact Hfit]. }
    rewrite (loop_body_data c l w Hc Hz Hf Hpart).
    simpl.
    rewrite IH; simpl; [|now right|lia|now rewrite <- Z.add_assoc].
    rewrite fs_write_app, received_cons. f_equal.
    + f_equal. lia.
    + f_equal.
      * rewrite <- app_assoc. simpl. f_equal. f_equal.
        -- unfold received. simpl. now rewrite app_nil_r.
        -- rewrite <- (seq_shift (length chunks) 1), map_map.
           apply map_ext. intros k. rewrite received_cons. f_equal. lia.
      * lia.
Qed.

End Loop.

(** ** fetch_url as a whole *)

Section FetchUrl.
Variables (env : Env) (url : string) (filename : Path) (asset_gather : AssetGather).
Implicit Types (w : World) (ureq : Response) (file_size : Z).

(** Up to the loop. *)
Lemma fetch_url_opened w ureq file_size f :
  urlopen env url = Ok ureq ->
  int (Content_Length ureq) = Ok file_size ->
  fs_open_w (fs w) filename = Ok f ->
  fetch_url env url filename asset_gather w
  = while_true filename file_size false (body ureq) (mkLoop 0 0)
      (mkWorld f (out w ++ [Downloading filename file_size])
         (net_reads w) (slept w)).
Proof.
  intros Hu Hi Ho. unfold fetch_url, bind, of_result, emit, modify, fs_try.
  rewrite Hu, Hi. cbn [fs out net_reads slept set_out set_fs]. now rewrite Ho.
Qed.

(** The routine makes a weak reference to its gather and never looks at
    either: any other gather gives the same run. *)
Lemma fetch_url_any_gather (g : AssetGather) w :
  fetch_url env url filename g w = fetch_url env url filename asset_gather w.
Proof. reflexivity. Qed.

(** Only the answer of [urlopen] at [url] matters. *)
Lemma fetch_url_env (env' : Env) w :
  urlopen env' url = urlopen env url ->
  fetch_url env' url filename asset_gather w
  = fetch_url env url filename asset_gather w.
Proof. intros He. unfold fetch_url, bind, of_result. now rewrite He. Qed.

Lemma received_lt (chunks : list bytes) (j k : nat) :
  Forall (fun c => c <> []) chunks ->
  (j < k <= length chunks)%nat ->
  received chunks j < received chunks k.
Proof.
  intros Hne. revert j k.
  induction Hne as [|c chunks Hc Hne IH]; intros j k Hjk; simpl in Hjk; [lia|].
  destruct k as [|k]; [lia|]. rewrite received_cons.
  assert (0 < Z.of_nat (length c)) by (destruct c; [done|simpl; lia]).
  destruct j as [|j].
  - pose proof (received_nonneg chunks k). unfold received at 1. simpl. lia.
  - rewrite received_cons. specialize (IH j k). lia.
Qed.

Lemma received_all (chunks : list bytes) :
  received chunks (length chunks) = Z.of_nat (length (concat chunks)).
Proof. unfold received. now rewrite firstn_all. Qed.

Lemma fits_float_0 : fits_float 0 = true.
Proof. reflexivity. Qed.

(** The run up to the end of the blocks of data the stream begins with. *)
Lemma fetch_url_blocks w ureq file_size (chunks : list bytes)
    (rest : list (result bytes)) f :
  urlopen env url = Ok ureq ->
  int (Content_Length ureq) = Ok file_size ->
  fs_open_w (fs w) filename = Ok f ->
  body ureq = map Ok chunks ++ rest ->
  Forall (fun c => c <> []) chunks ->
  ratio_defined file_size chunks ->
  exists r,
    fetch_url env url filename asset_gather w
    = while_true filename file_size false rest
        (mkLoop (received chunks (length chunks)) 0)
        (mkWorld (fs_write f filename (concat chunks))
           (out w
            ++ Downloading filename file_size
            :: map (fun k => status_of file_size (received chunks k))
                 (seq 1 (length chunks)))
           (net_reads w + length chunks) (slept w))
    /\ stat (fs_write f filename (concat chunks)) filename
       = Some (File r true (concat chunks)).
Proof.
  intros Hu Hi Ho Hb Hne Hr.
  rewrite (fetch_url_opened w ureq file_size f Hu Hi Ho), Hb.
  destruct (fs_open_w_Ok _ _ _ Ho) as (r & _ & Hs).
  exists r. split.
  - rewrite (while_true_blocks filename file_size chunks rest _ _ Hne).
    + cbn [fs out net_reads slept file_size_dl time_outs].
      rewrite <- app_assoc. reflexivity.
    + destruct Hr as [?|(? & ? & _)]; [now left|now right].
    + simpl. lia.
    + simpl. destruct Hr as [->|(_ & _ & ?)]; [reflexivity|done].
  - unfold fs_write. now rewrite (stat_alter_eq _ _ _ _ Hs).
Qed.

(** C4: when the opened stream has no [Content-Length] header, or one
    that [int] does not accept, the routine raises to its caller
    ([TypeError] for the missing header, [ValueError] for the non-numeric
    one) and leaves the world as it was: no read has been issued on the
    stream and no output file has been opened. *)
Theorem fetch_url_bad_size_header w ureq :
  urlopen env url = Ok ureq ->
  (Content_Length ureq = None ->
   fetch_url env url filename asset_gather w = (w, Raise TypeError))
  /\ (forall s, Content_Length ureq = Some s -> py_int s = None ->
      fetch_url env url filename asset_gather w = (w, Raise ValueError)).
Proof.
  intros Hu. unfold fetch_url, bind, of_result. rewrite Hu. split.
  - now intros ->.
  - intros s -> Hs. unfold int. now rewrite Hs.
Qed.

End FetchUrl.

(** ** Output written earlier does not influence a download *)

Section Frame.
Implicit Types (o : list Out) (w : World).

Lemma framed_ret {A} (a : A) : framed (ret a).
Proof. done. Qed.

Lemma framed_raise {A} (e : exn) : framed (@raise World A e).
Proof. done. Qed.

Lemma framed_of_result {A} (r : result A) : framed (of_result r).
Proof. done. Qed.

Lemma framed_bind {A B} (c : M World A) (k : A -> M World B) :
  framed c -> (forall a, framed (k a)) -> framed (bind c k).
Proof.
  intros Hc Hk o w. unfold bind. rewrite Hc.
  destruct (c w) as [w' [a|e]]; simpl; [apply Hk|done].
Qed.

Lemma framed_emit (x : Out) : framed (emit x).
Proof.
  intros o w. unfold emit, modify, frame, set_out. simpl.
  now rewrite app_assoc.
Qed.

Lemma framed_count_read : framed count_read.
Proof. done. Qed.

Lemma framed_time_sleep (n : Z) : framed (time_sleep n).
Proof. done. Qed.

Lemma framed_write_data (p : Path) (data : bytes) : framed (write_data p data).
Proof. done. Qed.

Lemma framed_fs_try (op : gmap Path Node -> result (gmap Path Node)) :
  framed (fs_try op).
Proof.
  intros o w. unfold fs_try. simpl. now destruct (op (fs w)).
Qed.

Lemma framed_percent_of (n file_size : Z) : framed (percent_of n file_size).
Proof.
  unfold percent_of.
  destruct (negb (fits_float n)); [done|].
  destruct (negb (fits_float file_size)); [done|].
  destruct (file_size =? 0)%Z; done.
Qed.

Create HintDb framed.
#[local] Hint Resolve framed_ret framed_raise framed_of_result framed_emit
  framed_count_read framed_time_sleep framed_write_data framed_fs_try
  framed_percent_of : framed.

Lemma framed_loop_body (p : Path) (file_size : Z) (read : result bytes)
    (l : Loop) :
  framed (loop_body p file_size read l).
Proof.
  unfold loop_body, print.
  apply framed_bind; [auto with framed|]. intros _.
  destruct read as [[|b data]|e].
  - repeat (apply framed_bind; [auto with framed|]; intros ?); auto with framed.
  - repeat (apply framed_bind; [auto with framed|]; intros ?); auto with framed.
  - destruct (is_socket_timeout e); [|auto with framed].
    destruct (3 <? time_outs l)%Z;
      repeat (apply framed_bind; [auto with framed|]; intros ?);
      auto with framed.
Qed.

Lemma framed_while_true (p : Path) (file_size : Z) (timed_out : bool)
    (stream : list (result bytes)) (l : Loop) :
  framed (while_true p file_size timed_out stream l).
Proof.
  revert timed_out l.
  induction stream as [|read stream IH]; intros timed_out l; simpl.
  - apply framed_bind; [apply framed_loop_body|]. intros _. apply framed_ret.
  - apply framed_bind; [apply framed_loop_body|].
    intros [l'|]; [apply IH|apply framed_ret].
Qed.

Lemma framed_fetch_url (env : Env) (url : string) (p : Path) (g : AssetGather) :
  framed (fetch_url env url p g).
Proof.
  unfold fetch_url.
  repeat (apply framed_bind; [auto with framed|]; intros ?).
  apply framed_while_true.
Qed.

Lemma frame_self w : frame (out w) (set_out [] w) = w.
Proof. destruct w. unfold frame, set_out. simpl. now rewrite app_nil_r. Qed.

End Frame.

(** What [launch_gather] does, through the download it starts: the
    download is computed on a world without earlier output and without the
    arguments. *)
Lemma launch_gather_download (env : Env) (self : AssetManager)
    (packages : list string) (flavor : AssetPackageFlavor)
    (account_token : string) (w : World) :
  let gather := mkAssetGather (weakref_ref self) true in
  let download :=
    fetch_url env testdl_url (Path_join (rootdir self) "testdl") gather
      (set_out [] w) in
  launch_gather env self packages flavor account_token w
  = (set_out
       (out w
        ++ WouldGather packages flavor account_token
        :: Printed "AssetGather()"
        :: out (fst download)
        ++ match snd download with
           | Ok _ => [Printed "fetch success"]
           | Raise _ => []
           end)
       (fst download),
     match snd download with
     | Ok _ => Ok gather
     | Raise e => Raise e
     end).
Proof.
  intros gather download.
  assert (Hd : download
               = fetch_url env testdl_url (Path_join (rootdir self) "testdl")
                   gather (set_out [] w)) by reflexivity.
  clearbody download.
  unfold launch_gather, AssetGather_init, print, bind, emit, modify, ret.
  cbn [set_out fs out net_reads slept].
  set (o := (out w ++ [WouldGather packages flavor account_token])
            ++ [Printed "AssetGather()"]).
  assert (Hf : fetch_url env testdl_url (Path_join (rootdir self) "testdl")
                  gather (mkWorld (fs w) o (net_reads w) (slept w))
                = (frame o (fst download), snd download)).
  { rewrite Hd, <- framed_fetch_url. unfold frame, set_out. simpl.
    now rewrite app_nil_r. }
  fold gather.
  change (set_out o (set_out (out w ++ [WouldGather packages flavor account_token]) w))
    with (mkWorld (fs w) o (net_reads w) (slept w)).
  rewrite Hf.
  destruct download as [w0 [[]|e]]; simpl; unfold frame, set_out, o; simpl;
    rewrite <- ?app_assoc; simpl; rewrite <- ?app_assoc, ?app_nil_r;
    reflexivity.
Qed.


(** ** The timeout counter along a run *)

Section Counter.
Variables (filename : Path) (file_size : Z).
Implicit Types (l : Loop) (w : World) (c : Config).

(** A turn that goes on after a block of data keeps the counter. *)
Lemma loop_body_data_time_outs (data : bytes) l w w' l' :
  loop_body filename file_size (Ok data) l w = (w', Ok (Continue l')) ->
  time_outs l' = time_outs l.
Proof.
  unfold loop_body, percent_of, bind, count_read, write_data, print, emit,
    modify, ret, raise.
  destruct data as [|b d]; [discriminate|].
  destruct (negb (fits_float _)); [discriminate|].
  destruct (negb (fits_float file_size)); [discriminate|].
  destruct (file_size =? 0)%Z; [discriminate|].
  now intros [= _ <-].
Qed.

(** A refused read does not let the loop go round again. *)
Lemma loop_body_refused (read : result bytes) l w w' l' :
  loop_body filename file_size (ureq_read true read) l w
  <> (w', Ok (Continue l')).
Proof. unfold ureq_read. now rewrite loop_body_error. Qed.

(** The loop run from a configuration is the loop run from any
    configuration it comes to. *)
Lemma while_true_running c c' :
  running filename file_size c c' ->
  while_true filename file_size (reader_timed_out c) (socket c) (vars c)
    (world c)
  = while_true filename file_size (reader_timed_out c') (socket c') (vars c')
      (world c').
Proof.
  induction 1 as [c|timed_out read rest l w l' w' c' Hturn _ IH]; [done|].
  simpl in *. unfold bind at 1. now rewrite Hturn.
Qed.

(** As long as no read has timed out the counter is zero. *)
Lemma running_counter c c' :
  running filename file_size c c' ->
  (reader_timed_out c = false -> time_outs (vars c) = 0) ->
  reader_timed_out c' = false -> time_outs (vars c') = 0.
Proof.
  induction 1 as [c|timed_out read rest l w l' w' c' Hturn _ IH]; [auto|].
  simpl. intros Hc. apply IH. simpl.
  destruct timed_out; [now apply loop_body_refused in Hturn|].
  destruct read as [data|e]; simpl in *.
  - intros _.
    rewrite (loop_body_data_time_outs data l w w' l' Hturn). auto.
  - destruct (is_socket_timeout e) eqn:He; [intros ?; discriminate|].
    now rewrite loop_body_error in Hturn.
Qed.

End Counter.


(** * Further properties of the module *)

(** ** fetch_url: what it costs and what it touches *)

Section Accounting.
Variables (filename : Path) (file_size : Z).
Implicit Types (l : Loop) (w : World) (stream : list (result bytes)).

(** The seconds the loop may still sleep, given its counter. *)
Local Abbreviation budget t := (3 * Z.max 0 (4 - t)).

Lemma loop_body_accounting (read : result bytes) l w w' (n : result Next) :
  loop_body filename file_size read l w = (w', n) ->
  net_reads w' = S (net_reads w)
  /\ slept w <= slept w'
  /\ match n with
     | Ok (Continue l') =>
         slept w' + budget (time_outs l') <= slept w + budget (time_outs l)
     | _ => slept w' = slept w
     end.
Proof.
  unfold loop_body, percent_of, bind, count_read, write_data, print, emit,
    time_sleep, fs_try, modify, ret, raise.
  destruct read as [[|b d]|e]; cbn [fs out net_reads slept set_fs set_out].
  - intros [= <- <-]. simpl. lia.
  - destruct (negb (fits_float _)); [intros [= <- <-]; simpl; lia|].
    destruct (negb (fits_float file_size)); [intros [= <- <-]; simpl; lia|].
    destruct (file_size =? 0)%Z; intros [= <- <-]; simpl; lia.
  - destruct (is_socket_timeout e); [|intros [= <- <-]; simpl; lia].
    destruct (3 <? time_outs l)%Z eqn:Ht;
      cbn [fs out net_reads slept set_fs set_out].
    + destruct (fs_unlink (fs w) filename); intros [= <- <-]; simpl; lia.
    + apply Z.ltb_ge in Ht. intros [= <- <-]. simpl. lia.
Qed.

Lemma while_true_accounting (timed_out : bool) stream l w :
  let w' := fst (while_true filename file_size timed_out stream l w) in
  (net_reads w < net_reads w' <= net_reads w + length stream + 1)%nat
  /\ slept w <= slept w' <= slept w + budget (time_outs l).
Proof.
  revert timed_out l w.
  induction stream as [|read stream IH]; intros timed_out l w; simpl.
  - unfold bind.
    destruct (loop_body filename file_size (ureq_read timed_out (Ok [])) l w)
      as [w1 n] eqn:E.
    destruct (loop_body_accounting _ _ _ _ _ E) as (Hr & Hs & Hn).
    destruct n as [[l'|]|e]; simpl; lia.
  - unfold bind.
    destruct (loop_body filename file_size (ureq_read timed_out read) l w)
      as [w1 n] eqn:E.
    destruct (loop_body_accounting _ _ _ _ _ E) as (Hr & Hs & Hn).
    destruct n as [[l'|]|e]; simpl; try lia.
    specialize (IH (timed_out || is_timeout read) l' w1). simpl in IH. lia.
Qed.

End Accounting.

(** X9: whatever the stream does, one call sleeps at most twelve seconds
    in all (three per tolerated timeout) and issues at most one read more
    than the stream has results; it issues no read when the url does not
    open. *)
Theorem fetch_url_bounded (env : Env) (url : string) (filename : Path)
    (asset_gather : AssetGather) (w : World) :
  let w' := fst (fetch_url env url filename asset_gather w) in
  slept w <= slept w' <= slept w + 12
  /\ match urlopen env url with
     | Ok ureq =>
         (net_reads w <= net_reads w' <= net_reads w + length (body ureq) + 1)%nat
     | Raise _ => net_reads w' = net_reads w
     end.
Proof.
  unfold fetch_url, bind, of_result, emit, modify, fs_try.
  destruct (urlopen env url) as [ureq|e]; simpl; [|lia].
  destruct (int (Content_Length ureq)) as [file_size|e]; simpl; [|lia].
  destruct (fs_open_w (fs w) filename) as [f|e]; simpl; [|lia].
  pose proof (while_true_accounting filename file_size false (body ureq)
                (mkLoop 0 0)
                (set_fs f (set_out (out w ++ [Downloading filename file_size]) w)))
    as Ha.
  simpl in Ha. lia.
Qed.

Section Touches.
Implicit Types (p : Path) (w : World).

Lemma touches_only_bind {A B} p (c : M World A) (k : A -> M World B) :
  touches_only p c -> (forall a, touches_only p (k a)) ->
  touches_only p (bind c k).
Proof.
  intros Hc Hk w q Hq. unfold bind. specialize (Hc w q Hq).
  destruct (c w) as [w1 [a|e]]; simpl in *; [|done].
  now rewrite (Hk a w1 q Hq).
Qed.

Lemma touches_only_pure {A} p (c : M World A) :
  (forall w, fs (fst (c w)) = fs w) -> touches_only p c.
Proof. intros Hc w q _. now rewrite Hc. Qed.

Lemma touches_only_write_data p (data : bytes) :
  touches_only p (write_data p data).
Proof. intros w q Hq. simpl. unfold fs_write. now rewrite lookup_alter_ne. Qed.

Lemma touches_only_open p :
  touches_only p (fs_try (fun f => fs_open_w f p)).
Proof.
  intros w q Hq. unfold fs_try.
  destruct (fs_open_w (fs w) p) as [f|e] eqn:Ho; simpl; [|done].
  destruct (fs_open_w_Ok _ _ _ Ho) as (r & -> & _).
  now rewrite lookup_insert_ne.
Qed.

Lemma touches_only_unlink p :
  touches_only p (fs_try (fun f => fs_unlink f p)).
Proof.
  intros w q Hq. unfold fs_try, fs_unlink.
  repeat case_match; simplify_eq; simpl; try done.
  now rewrite lookup_delete_ne.
Qed.

Lemma touches_only_emit p (o : Out) : touches_only p (emit o).
Proof. now apply touches_only_pure. Qed.

Lemma touches_only_percent_of p (n file_size : Z) :
  touches_only p (percent_of n file_size).
Proof.
  unfold percent_of.
  destruct (negb (fits_float n)); [now apply touches_only_pure|].
  destruct (negb (fits_float file_size)); [now apply touches_only_pure|].
  destruct (file_size =? 0)%Z; now apply touches_only_pure.
Qed.

Lemma touches_only_loop_body p (file_size : Z) (read : result bytes) (l : Loop) :
  touches_only p (loop_body p file_size read l).
Proof.
  unfold loop_body, print.
  apply touches_only_bind; [now apply touches_only_pure|]. intros _.
  destruct read as [[|b d]|e].
  - apply touches_only_bind; [apply touches_only_emit|].
    intros _. now apply touches_only_pure.
  - apply touches_only_bind; [apply touches_only_write_data|]. intros _.
    apply touches_only_bind; [apply touches_only_percent_of|].
    intros q. apply touches_only_bind; [apply touches_only_emit|].
    intros _. now apply touches_only_pure.
  - destruct (is_socket_timeout e); [|now apply touches_only_pure].
    destruct (3 <? time_outs l)%Z.
    + apply touches_only_bind; [apply touches_only_emit|]. intros _.
      apply touches_only_bind; [apply touches_only_unlink|]. intros _.
      now apply touches_only_pure.
    + apply touches_only_bind; [apply touches_only_emit|]. intros _.
      apply touches_only_bind; [now apply touches_only_pure|]. intros _.
      now apply touches_only_pure.
Qed.

Lemma touches_only_while_true p (file_size : Z) (timed_out : bool)
    (stream : list (result bytes)) (l : Loop) :
  touches_only p (while_true p file_size timed_out stream l).
Proof.
  revert timed_out l.
  induction stream as [|read stream IH]; intros timed_out l; simpl.
  - apply touches_only_bind; [apply touches_only_loop_body|].
    intros _. now apply touches_only_pure.
  - apply touches_only_bind; [apply touches_only_loop_body|].
    intros [l'|]; [apply IH|now apply touches_only_pure].
Qed.

Lemma touches_only_fetch_url (env : Env) (url : string) p (g : AssetGather) :
  touches_only p (fetch_url env url p g).
Proof.
  unfold fetch_url.
  apply touches_only_bind; [now apply touches_only_pure|]. intros ureq.
  apply touches_only_bind; [now apply touches_only_pure|]. intros file_size.
  apply touches_only_bind; [apply touches_only_emit|]. intros _.
  apply touches_only_bind; [apply touches_only_open|]. intros _.
  apply touches_only_while_true.
Qed.

Lemma touches_only_launch_gather (env : Env) (self : AssetManager)
    (packages : list string) (flavor : AssetPackageFlavor)
    (account_token : string) :
  touches_only (Path_join (rootdir self) "testdl")
    (launch_gather env self packages flavor account_token).
Proof.
  unfold launch_gather, AssetGather_init, print.
  apply touches_only_bind; [apply touches_only_emit|]. intros _.
  apply touches_only_bind; [apply touches_only_emit|]. intros _.
  apply touches_only_bind; [apply touches_only_fetch_url|]. intros _.
  apply touches_only_bind; [apply touches_only_emit|]. intros _.
  now apply touches_only_pure.
Qed.

End Touches.

(** X10: a download changes no entry of the disk other than that of its
    output file, however it ends. *)
Theorem fetch_url_touches_only_filename (env : Env) (url : string)
    (filename : Path) (asset_gather : AssetGather) (w : World) (k : Path) :
  k <> filename ->
  fs (fst (fetch_url env url filename asset_gather w)) !! k = fs w !! k.
Proof. intros Hk. now apply touches_only_fetch_url. Qed.

(** X11: a gather never touches the persisted state: [launch_gather]
    changes no entry of the disk other than [<rootdir>/testdl], so the
    state file of the manager is after the call what it was before,
    whether the download succeeds or raises. *)
Theorem launch_gather_keeps_state_file (env : Env) (self : AssetManager)
    (packages : list string) (flavor : AssetPackageFlavor)
    (account_token : string) (w : World) :
  let w' := fst (launch_gather env self packages flavor account_token w) in
  (forall k : Path, k <> Path_join (rootdir self) "testdl" ->
     fs w' !! k = fs w !! k)
  /\ fs w' !! state_path self = fs w !! state_path self.
Proof.
  split.
  - intros k Hk. now apply touches_only_launch_gather.
  - apply touches_only_launch_gather.
    unfold state_path, Path_join, rootdir. intros Heq.
    apply app_inj_tail in Heq as [_ Heq]. discriminate.
Qed.

(** ** fetch_url: how a download ends *)

Section KeepsFile.
Variables (filename : Path) (file_size : Z).
Implicit Types (l : Loop) (w : World).

(** A turn on a block of data, whatever becomes of the progress ratio:
    the block is in the file before the ratio is computed. *)
Lemma loop_body_block (b : byte) (d : bytes) l w :
  exists o (n : result Next),
    loop_body filename file_size (Ok (b :: d)) l w
    = (mkWorld (fs_write (fs w) filename (b :: d)) (out w ++ o)
         (S (net_reads w)) (slept w), n)
    /\ n <> Raise SocketTimeout.
Proof.
  unfold loop_body, percent_of, bind, count_read, write_data, emit, modify,
    ret, raise. cbn [fs out net_reads slept set_fs set_out].
  destruct (negb (fits_float _));
    [exists [], (Raise OverflowError); now rewrite app_nil_r|].
  destruct (negb (fits_float file_size));
    [exists [], (Raise OverflowError); now rewrite app_nil_r|].
  destruct (file_size =? 0)%Z;
    [exists [], (Raise ZeroDivisionError); now rewrite app_nil_r|].
  eexists [_], _. split; [reflexivity|done].
Qed.

(** With the counter at three or less the loop never comes to give up:
    it leaves the output file in place and does not raise
    [socket.timeout]. *)
Lemma while_true_keeps_file (timed_out : bool) (socket : list (result bytes))
    l w (r : bool) (d : bytes) :
  time_outs l <= 3 ->
  stat (fs w) filename = Some (File r true d) ->
  let done := while_true filename file_size timed_out socket l w in
  (exists d', stat (fs (fst done)) filename = Some (File r true d'))
  /\ snd done <> Raise SocketTimeout.
Proof.
  revert timed_out l w d.
  assert (Hrefused : forall socket l w d,
    stat (fs w) filename = Some (File r true d) ->
    let done := while_true filename file_size true socket l w in
    (exists d', stat (fs (fst done)) filename = Some (File r true d'))
    /\ snd done <> Raise SocketTimeout).
  { intros s l w d Hs. cbv zeta. rewrite while_true_timed_out. simpl. eauto. }
  assert (Heof : forall l w d,
    stat (fs w) filename = Some (File r true d) ->
    let done := (loop_body filename file_size (Ok []) l ;; ret tt)%py w in
    (exists d', stat (fs (fst done)) filename = Some (File r true d'))
    /\ snd done <> Raise SocketTimeout).
  { intros l w d Hs. cbv zeta. unfold bind. rewrite loop_body_eof. simpl. eauto. }
  induction socket as [|read socket IH]; intros timed_out l w d Ht Hs.
  - destruct timed_out; [now apply (Hrefused [] l w d)|].
    simpl. now apply (Heof l w d).
  - destruct timed_out; [now apply (Hrefused (read :: socket) l w d)|].
    cbn [while_true ureq_read orb]. unfold bind.
    destruct read as [[|b blk]|e].
    + rewrite loop_body_eof. simpl. eauto.
    + destruct (loop_body_block b blk l w) as (o & n & Hn & Hne).
      assert (Hs' : stat (fs_write (fs w) filename (b :: blk)) filename
                    = Some (File r true (d ++ b :: blk))).
      { unfold fs_write. now rewrite (stat_alter_eq _ _ _ _ Hs). }
      destruct n as [[l'|]|e].
      * pose proof (loop_body_data_time_outs _ _ _ _ _ _ _ Hn) as Hl.
        rewrite Hn. apply (IH _ _ _ (d ++ b :: blk)); [lia|exact Hs'].
      * rewrite Hn. simpl. split; [eauto|done].
      * rewrite Hn. simpl. split; [eauto|].
        intros [= ->]. now apply Hne.
    + destruct (is_socket_timeout e) eqn:He.
      * destruct e; try discriminate.
        rewrite (loop_body_retry filename file_size l w Ht). simpl.
        now apply (Hrefused socket _ _ d).
      * rewrite (loop_body_error filename file_size e l w He). simpl.
        split; [eauto|]. intros [= ->]. discriminate.
Qed.

End KeepsFile.

Section SleepsOnce.
Variables (filename : Path) (file_size : Z).
Implicit Types (l : Loop) (w : World).

(** The loop sleeps once at most: after the pause that follows a timeout
    the next read is refused. *)
Lemma while_true_sleeps (timed_out : bool) (socket : list (result bytes)) l w :
  time_outs l <= 3 ->
  let w' := fst (while_true filename file_size timed_out socket l w) in
  slept w <= slept w' <= slept w + (if timed_out then 0 else 3).
Proof.
  revert timed_out l w.
  induction socket as [|read socket IH]; intros timed_out l w Ht;
    (destruct timed_out; [rewrite while_true_timed_out; simpl; lia|]).
  - cbn [while_true ureq_read]. unfold bind. rewrite loop_body_eof. simpl. lia.
  - cbn [while_true ureq_read orb]. unfold bind.
    destruct read as [[|b blk]|e].
    + rewrite loop_body_eof. simpl. lia.
    + destruct (loop_body_block filename file_size b blk l w)
        as (o & n & Hn & _).
      destruct n as [[l'|]|e].
      * pose proof (loop_body_data_time_outs _ _ _ _ _ _ _ Hn) as Hl.
        rewrite Hn. simpl.
        specialize (IH false l'
                      (mkWorld (fs_write (fs w) filename (b :: blk))
                         (out w ++ o) (S (net_reads w)) (slept w))).
        simpl in IH. apply IH. lia.
      * rewrite Hn. simpl. lia.
      * rewrite Hn. simpl. lia.
    + destruct (is_socket_timeout e) eqn:He.
      * destruct e; try discriminate.
        rewrite (loop_body_retry filename file_size l w Ht). simpl.
        rewrite while_true_timed_out. simpl. lia.
      * rewrite (loop_body_error filename file_size e l w He). simpl. lia.
Qed.

End SleepsOnce.

(** X14: whatever the stream does, one call sleeps three seconds at most:
    a pause follows the first timeout only, because the read after it is
    refused and ends the call. *)
Theorem fetch_url_sleeps_once (env : Env) (url : string) (filename : Path)
    (asset_gather : AssetGather) (w : World) :
  let w' := fst (fetch_url env url filename asset_gather w) in
  slept w <= slept w' <= slept w + 3.
Proof.
  unfold fetch_url, bind, of_result, emit, modify, fs_try.
  destruct (urlopen env url) as [ureq|e]; simpl; [|lia].
  destruct (int (Content_Length ureq)) as [file_size|e]; simpl; [|lia].
  destruct (fs_open_w (fs w) filename) as [f|e]; simpl; [|lia].
  pose proof (while_true_sleeps filename file_size false (body ureq)
                (mkLoop 0 0)
                (set_fs f (set_out (out w ++ [Downloading filename file_size]) w)))
    as Hs.
  simpl in Hs. apply Hs. lia.
Qed.

(** A block of data at a declared size of zero. *)
Lemma loop_body_zero_size (filename : Path) (data : bytes) (l : Loop)
    (w : World) :
  data <> [] ->
  fits_float (file_size_dl l + Z.of_nat (length data)) = true ->
  loop_body filename 0 (Ok data) l w
  = (mkWorld (fs_write (fs w) filename data) (out w) (S (net_reads w))
       (slept w),
     Raise ZeroDivisionError).
Proof.
  intros Hd Hfit. destruct data as [|b d]; [done|].
  unfold loop_body, percent_of, bind, count_read, write_data, modify, raise.
  now rewrite Hfit.
Qed.

Section Endings.
Variables (env : Env) (url : string) (filename : Path) (asset_gather : AssetGather).
Implicit Types (w : World) (ureq : Response) (file_size : Z)
  (chunks : list bytes) (rest post : list (result bytes)).

(** X5: the first timeout of a read is fatal.  After blocks of data, a
    read that times out makes the routine print its notice, sleep three
    seconds and read once more; that read is refused by the response with
    an [OSError], which ends the call.  Nothing is retried and the output
    file stays on the disk with the data received before the timeout. *)
Theorem fetch_url_first_timeout_is_fatal w ureq file_size chunks post f :
  urlopen env url = Ok ureq ->
  int (Content_Length ureq) = Ok file_size ->
  fs_open_w (fs w) filename = Ok f ->
  body ureq = map Ok chunks ++ Raise SocketTimeout :: post ->
  Forall (fun c => c <> []) chunks ->
  ratio_defined file_size chunks ->
  exists w',
    fetch_url env url filename asset_gather w
    = (w', Raise (OSError "cannot read from timed out object"))
    /\ file_data (fs w') filename = Some (concat chunks)
    /\ net_reads w' = (net_reads w + length chunks + 2)%nat
    /\ slept w' = slept w + 3.
Proof.
  intros Hu Hi Ho Hb Hne Hr.
  destruct (fetch_url_blocks env url filename asset_gather w ureq file_size
              chunks _ f Hu Hi Ho Hb Hne Hr) as (r & -> & Hs).
  rewrite while_true_timeout by (simpl; lia).
  eexists. split; [reflexivity|]. cbn [fs net_reads slept].
  unfold file_data. rewrite Hs. repeat split. lia.
Qed.

(** X6: the routine never gives up on timeouts and never removes its
    output file.  Once the output file is open, whatever the stream does,
    the file is still on the disk when the call returns and the call does
    not raise [socket.timeout]: the branch that unlinks the file and
    re-raises is out of reach, because no read follows a timeout but the
    one that is refused. *)
Theorem fetch_url_never_unlinks w ureq file_size f :
  urlopen env url = Ok ureq ->
  int (Content_Length ureq) = Ok file_size ->
  fs_open_w (fs w) filename = Ok f ->
  let done := fetch_url env url filename asset_gather w in
  (exists data, file_data (fs (fst done)) filename = Some data)
  /\ snd done <> Raise SocketTimeout.
Proof.
  intros Hu Hi Ho. cbv zeta.
  rewrite (fetch_url_opened env url filename asset_gather w ureq file_size f
             Hu Hi Ho).
  destruct (fs_open_w_Ok _ _ _ Ho) as (r & _ & Hs).
  destruct (while_true_keeps_file filename file_size false (body ureq)
              (mkLoop 0 0)
              (mkWorld f (out w ++ [Downloading filename file_size])
                 (net_reads w) (slept w)) r [])
    as [[d' Hd] Hne]; [simpl; lia|exact Hs|].
  split; [|exact Hne]. exists d'. unfold file_data. now rewrite Hd.
Qed.

(** X7: an exception raised by a read other than [socket.timeout] is not
    retried: after blocks of data it propagates at once, no further read is
    issued, and the output file is left on the disk with the data received
    so far. *)
Theorem fetch_url_read_error_propagates w ureq file_size chunks post f
    (e : exn) :
  urlopen env url = Ok ureq ->
  int (Content_Length ureq) = Ok file_size ->
  fs_open_w (fs w) filename = Ok f ->
  body ureq = map Ok chunks ++ Raise e :: post ->
  is_socket_timeout e = false ->
  Forall (fun c => c <> []) chunks ->
  ratio_defined file_size chunks ->
  exists w',
    fetch_url env url filename asset_gather w = (w', Raise e)
    /\ file_data (fs w') filename = Some (concat chunks)
    /\ net_reads w' = (net_reads w + length chunks + 1)%nat.
Proof.
  intros Hu Hi Ho Hb He Hne Hr.
  destruct (fetch_url_blocks env url filename asset_gather w ureq file_size
              chunks _ f Hu Hi Ho Hb Hne Hr) as (r & -> & Hs).
  cbn [while_true ureq_read]. unfold bind.
  rewrite (loop_body_error filename file_size e _ _ He).
  eexists. split; [reflexivity|]. cbn [fs net_reads].
  unfold file_data. rewrite Hs. split; [done|lia].
Qed.

(** X8: a declared size of zero is fatal as soon as data arrives.  The
    first block of data is written to the output file and the routine then
    raises [ZeroDivisionError] without reading further, leaving the file on
    the disk. *)
Theorem fetch_url_zero_size w ureq post f (data : bytes) :
  urlopen env url = Ok ureq ->
  int (Content_Length ureq) = Ok 0 ->
  fs_open_w (fs w) filename = Ok f ->
  body ureq = Ok data :: post ->
  data <> [] ->
  fits_float (Z.of_nat (length data)) = true ->
  exists w',
    fetch_url env url filename asset_gather w = (w', Raise ZeroDivisionError)
    /\ file_data (fs w') filename = Some data
    /\ net_reads w' = (net_reads w + 1)%nat.
Proof.
  intros Hu Hi Ho Hb Hd Hfit.
  rewrite (fetch_url_opened env url filename asset_gather w ureq 0 f Hu Hi Ho), Hb.
  destruct (fs_open_w_Ok _ _ _ Ho) as (r & _ & Hs).
  cbn [while_true ureq_read]. unfold bind.
  rewrite (loop_body_zero_size filename data _ _ Hd) by exact Hfit.
  eexists. split; [reflexivity|]. cbn [fs net_reads].
  pose proof (stat_alter_eq _ _ (append_data data) _ Hs) as Hs'.
  change (alter (append_data data) filename ?m)
    with (fs_write m filename data) in Hs'.
  unfold file_data. rewrite Hs'. split; [done|lia].
Qed.


End Endings.

(** ** AssetManager over its lifetime *)

Section ManagerLife.
Context `{Codec}.
Implicit Types (self : AssetManager) (w : World) (st : State).

(** The disk after a save, by cases. *)
Lemma save_state_fs self w :
  fs (snd (fst (save_state (self, w))))
  = match fs_open_w (fs w) (state_path self) with
    | Raise _ => fs w
    | Ok f =>
        match _state self with
        | None => f
        | Some st =>
            fs_write f (state_path self) (list_byte_of_string (to_json_str st))
        end
    end.
Proof.
  run_py. destruct (fs_open_w (fs w) (state_path self)); simpl; [|done].
  now destruct (_state self).
Qed.

Lemma fs_open_w_other (f f' : gmap Path Node) (p k : Path) :
  fs_open_w f p = Ok f' -> k <> p -> f' !! k = f !! k.
Proof.
  intros Ho Hk. destruct (fs_open_w_Ok _ _ _ Ho) as (r & -> & _).
  now rewrite lookup_insert_ne.
Qed.

Lemma fs_write_other (f : gmap Path Node) (p k : Path) (data : bytes) :
  k <> p -> fs_write f p data !! k = f !! k.
Proof. intros Hk. unfold fs_write. now rewrite lookup_alter_ne. Qed.

Lemma save_state_other self w (k : Path) :
  k <> state_path self ->
  fs (snd (fst (save_state (self, w)))) !! k = fs w !! k.
Proof.
  intros Hk. rewrite save_state_fs.
  destruct (fs_open_w (fs w) (state_path self)) as [f|e] eqn:Ho; [|done].
  destruct (_state self);
    rewrite ?fs_write_other by done; eauto using fs_open_w_other.
Qed.

(** Opening for writing what was just written gives the same empty file. *)
Lemma fs_open_w_again (f f' : gmap Path Node) (p : Path) (data : bytes) :
  fs_open_w f p = Ok f' ->
  fs_open_w (fs_write f' p data) p = Ok f' /\ fs_open_w f' p = Ok f'.
Proof.
  intros Ho. destruct (fs_open_w_Ok _ _ _ Ho) as (r & -> & Hs).
  split.
  - unfold fs_open_w, fs_write.
    rewrite (stat_alter_eq _ _ _ _ Hs). simpl.
    now rewrite insert_alter_eq, insert_insert_eq.
  - unfold fs_open_w. rewrite Hs. now rewrite insert_insert_eq.
Qed.

Lemma save_state_again self w :
  fs (snd (fst (save_state (self, snd (fst (save_state (self, w)))))))
  = fs (snd (fst (save_state (self, w)))).
Proof.
  rewrite (save_state_fs self (snd (fst (save_state (self, w))))).
  rewrite !save_state_fs.
  destruct (fs_open_w (fs w) (state_path self)) as [f|e] eqn:Ho.
  - destruct (fs_open_w_again _ _ _ [] Ho) as [_ Hf].
    destruct (_state self) as [st|].
    + destruct (fs_open_w_again _ _ _
                  (list_byte_of_string (to_json_str st)) Ho) as [Hw _].
      now rewrite Hw.
    + now rewrite Hf.
  - now rewrite Ho.
Qed.

Lemma is_dir_agree (f f' : gmap Path Node) (q : Path) :
  (forall k : Path, (length k <= length q)%nat -> f !! k = f' !! k) ->
  is_dir f q = is_dir f' q.
Proof.
  intros Hk. unfold is_dir, stat. rewrite (resolve_agree f f' (rev q)); [done|].
  intros k Hlen. apply Hk. now rewrite length_rev in Hlen.
Qed.

Lemma fs_open_w_parent (f f' : gmap Path Node) (q : Path) (name : string) :
  fs_open_w f (Path_join q name) = Ok f' -> is_dir f q = true.
Proof.
  intros Ho. destruct (is_dir f q) eqn:Hd; [done|].
  destruct (fs_open_w_not_dir f q name Hd) as [e He]. congruence.
Qed.

(** Construction on a directory, through what [load_state] finds. *)
Lemma AssetManager_new_loads (rootdir : Path) w :
  is_dir (fs w) rootdir = true ->
  AssetManager_new rootdir w
  = (let s := fst (load_state
                     (mkAssetManager rootdir false None,
                      set_out (out w ++ [Printed "AssetManager()"]) w)) in
     (snd s, Ok (fst s))).
Proof.
  intros Hd.
  destruct (load_state_cases (mkAssetManager rootdir false None)
              (set_out (out w ++ [Printed "AssetManager()"]) w))
    as (st & w' & Hl & _).
  unfold AssetManager_new, AssetManager_init.
  unfold bind at 1 2 3 4, liftW, print, emit, modify, get_self, get_world, ret.
  cbn [fst snd fs set_out _rootdir]. rewrite Hd. cbn [negb].
  now rewrite Hl.
Qed.

(** [__del__] through [save_state]. *)
Lemma AssetManager_del_saves self w :
  AssetManager_del (self, w)
  = (let self' := mkAssetManager (_rootdir self) true (_state self) in
     let w1 := snd (fst (save_state (self', w))) in
     ((self', set_out (out w1 ++ [Printed "~AssetManager()"]) w1), Ok tt)).
Proof.
  destruct (save_state_total (mkAssetManager (_rootdir self) true (_state self)) w)
    as [w1 Hs].
  unfold AssetManager_del, update, set_shutting_down, bind, modify,
    get_self, liftW, print, emit. simpl. now rewrite Hs.
Qed.

(** X1: on an existing directory the construction always succeeds, whatever
    the state file holds: the new manager has the given [rootdir], is not
    shutting down and has its state bound, and the disk is as before.  The
    state is the default one when there is no state file or when the file
    does not decode, and the decoded one when it does. *)
Theorem AssetManager_new_on_directory (rootdir : Path) w :
  is_dir (fs w) rootdir = true ->
  exists st w',
    AssetManager_new rootdir w
    = (w', Ok (mkAssetManager rootdir false (Some st)))
    /\ fs w' = fs w
    /\ (exists_ (fs w) (Path_join rootdir "state") = false ->
        st = State_default)
    /\ (forall data e,
          fs_read (fs w) (Path_join rootdir "state") = Ok data ->
          from_json_str (string_of_list_byte data) = Raise e ->
          st = State_default)
    /\ (forall data st',
          fs_read (fs w) (Path_join rootdir "state") = Ok data ->
          from_json_str (string_of_list_byte data) = Ok st' ->
          st = st').
Proof.
  intros Hd. rewrite (AssetManager_new_loads rootdir w Hd).
  destruct (load_state_cases (mkAssetManager rootdir false None)
              (set_out (out w ++ [Printed "AssetManager()"]) w))
    as (st & w' & Hl & Hfs & Hmiss & _ & Hbad & Hok).
  exists st, w'. rewrite Hl. simpl. repeat split; assumption.
Qed.

(** X2: the state survives a restart.  When a manager whose state file can
    be written and read back is destroyed and a new manager is constructed
    on the same [rootdir], the new manager holds the state the old one had
    (for a state the codec decodes as encoded). *)
Theorem state_survives_restart self w st f :
  _state self = Some st ->
  fs_open_w (fs w) (state_path self) = Ok f ->
  fs_read f (state_path self) = Ok [] ->
  from_json_str (to_json_str st) = Ok st ->
  exists self' w1 w2,
    AssetManager_del (self, w) = ((self', w1), Ok tt)
    /\ AssetManager_new (rootdir self) w1
       = (w2, Ok (mkAssetManager (rootdir self) false (Some st))).
Proof.
  intros Hst Ho Hread Hcodec.
  set (self' := mkAssetManager (_rootdir self) true (_state self)).
  destruct (save_state_writes self' w st f Hst Ho) as (r & w1 & Hsave & Hs1 & Hf).
  change (state_path self') with (state_path self) in Hs1, Hf.
  assert (r = true) as ->.
  { unfold fs_read in Hread. rewrite Hf in Hread. now destruct r. }
  set (w1' := set_out (out w1 ++ [Printed "~AssetManager()"]) w1).
  assert (Hd : is_dir (fs w1') (rootdir self) = true).
  { rewrite <- (fs_open_w_parent _ _ _ _ Ho). apply is_dir_agree.
    intros k Hlen. simpl.
    replace (fs w1) with (fs (snd (fst (save_state (self', w)))))
      by (now rewrite Hsave).
    apply save_state_other. intros ->.
    unfold state_path, Path_join, rootdir in Hlen.
    rewrite length_app in Hlen. simpl in Hlen. lia. }
  destruct (load_state_cases (mkAssetManager (rootdir self) false None)
              (set_out (out w1' ++ [Printed "AssetManager()"]) w1'))
    as (st0 & w2 & Hl & _ & _ & _ & _ & Hok).
  exists self', w1', w2. split.
  - rewrite AssetManager_del_saves. cbv zeta. fold self'. now rewrite Hsave.
  - rewrite AssetManager_new_loads by exact Hd. rewrite Hl. simpl.
    rewrite (Hok (list_byte_of_string (to_json_str st)) st); [reflexivity| |].
    + unfold fs_read. simpl. change (state_path _) with (state_path self).
      now rewrite Hs1.
    + now rewrite string_of_list_byte_of_string.
Qed.

(** X3: [update] can be called again: a second call leaves the disk as the
    first call left it, whether or not the manager is shutting down and
    whether or not the state file can be written. *)
Theorem update_twice self w :
  exists w1 w2,
    update (self, w) = ((self, w1), Ok tt)
    /\ update (self, w1) = ((self, w2), Ok tt)
    /\ fs w2 = fs w1.
Proof.
  unfold update, bind, get_self, ret. simpl.
  destruct (_shutting_down self).
  - destruct (save_state_total self w) as [w1 Hs1].
    destruct (save_state_total self w1) as [w2 Hs2].
    exists w1, w2. repeat split; [assumption..|].
    pose proof (save_state_again self w) as Ha.
    rewrite Hs1 in Ha. simpl in Ha. now rewrite Hs2 in Ha.
  - now exists w, w.
Qed.

(** X4: [save_state] never raises, leaves the manager as it is, and changes
    no entry of the disk other than the state file; when the state file
    cannot be opened for writing it changes nothing on the disk at all. *)
Theorem save_state_swallows_errors self w :
  exists w',
    save_state (self, w) = ((self, w'), Ok tt)
    /\ (forall k : Path, k <> state_path self -> fs w' !! k = fs w !! k)
    /\ (forall e, fs_open_w (fs w) (state_path self) = Raise e ->
        fs w' = fs w).
Proof.
  destruct (save_state_total self w) as [w' Hs]. exists w'.
  split; [exact Hs|]. split.
  - intros k Hk. pose proof (save_state_other self w k Hk) as Ho.
    now rewrite Hs in Ho.
  - intros e He. pose proof (save_state_fs self w) as Hf.
    now rewrite Hs, He in Hf.
Qed.


End ManagerLife.

(** ** The properties on the sample data *)


(** C2: when the remote stalls, the first read times out, the routine
    sleeps three seconds and reads again, and that second read is refused
    by the response with an [OSError] that ends the call: the routine does
    not come to count more than one timeout, does not raise
    [socket.timeout], and leaves the output file on the disk. *)
Theorem stalled_download_is_not_cleaned_up :
  let done :=
    fetch_url (ex_env ex_stalled) testdl_url ex_target ex_gather ex_world in
  snd done = Raise (OSError "cannot read from timed out object")
  /\ net_reads (fst done) = 2%nat
  /\ slept (fst done) = 3
  /\ file_data (fs (fst done)) ex_target = Some [].
Proof. vm_compute. repeat split. Qed.


Lemma fetch_url_bad_size_header_witness :
  fetch_url (ex_env ex_no_size) testdl_url ex_target ex_gather ex_world
  = (ex_world, Raise TypeError)
  /\ fetch_url (ex_env ex_bad_size) testdl_url ex_target ex_gather ex_world
     = (ex_world, Raise ValueError).
Proof.
  split.
  - apply (fetch_url_bad_size_header (ex_env ex_no_size) testdl_url ex_target
             ex_gather ex_world ex_no_size); reflexivity.
  - apply (proj2 (fetch_url_bad_size_header (ex_env ex_bad_size) testdl_url
                    ex_target ex_gather ex_world ex_bad_size eq_refl)
             "6 bytes"); reflexivity.
Defined.

(** C9: with a declared size of zero the first chunk is written and the
    routine then raises [ZeroDivisionError] on the progress ratio instead
    of completing. *)
Theorem zero_size_does_not_complete :
  let done :=
    fetch_url (ex_env ex_zero_size) testdl_url ex_target ex_gather ex_world in
  snd done = Raise ZeroDivisionError
  /\ net_reads (fst done) = 1%nat
  /\ file_data (fs (fst done)) ex_target = Some (list_byte_of_string "abc").
Proof. vm_compute. repeat split. Qed.


Lemma load_state_never_raises_witness :
  exists w',
    load_state (H := json_codec)
      (mkAssetManager ex_root false None, set_fs ex_fs_saved ex_world)
    = ((ex_manager, w'), Ok tt).
Proof.
  destruct (load_state_never_raises (H := json_codec)
              (mkAssetManager ex_root false None)
              (set_fs ex_fs_saved ex_world))
    as (st & w' & Hload & _ & _ & _ & _ & Hok).
  exists w'. rewrite Hload.
  rewrite (Hok (list_byte_of_string (encode_state ex_state)) ex_state);
    [reflexivity|reflexivity|vm_compute; reflexivity].
Defined.

Lemma save_then_load_roundtrip_witness :
  exists w1 w2,
    save_state (H := json_codec) (ex_manager, ex_world)
    = ((ex_manager, w1), Ok tt)
    /\ load_state (H := json_codec) (mkAssetManager ex_root false None, w1)
       = ((ex_manager, w2), Ok tt).
Proof.
  apply (save_then_load_roundtrip (H := json_codec) ex_manager
           (mkAssetManager ex_root false None) ex_world ex_state
           (<[["assets"; "state"] := File true true []]> ex_fs));
    reflexivity.
Defined.




(** ** The further properties on the sample data *)

Lemma AssetManager_new_on_directory_witness :
  exists w',
    AssetManager_new (H := json_codec) ex_root (set_fs ex_fs_corrupt ex_world)
    = (w', Ok (mkAssetManager ex_root false (Some State_default)))
    /\ fs w' = ex_fs_corrupt.
Proof.
  destruct (AssetManager_new_on_directory (H := json_codec) ex_root
              (set_fs ex_fs_corrupt ex_world))
    as (st & w' & Hnew & Hfs & _ & Hbad & _); [reflexivity|].
  exists w'. split; [|exact Hfs]. rewrite Hnew.
  now rewrite (Hbad (list_byte_of_string "{oops") ValueError).
Defined.

Lemma state_survives_restart_witness :
  exists self' w1 w2,
    AssetManager_del (H := json_codec) (ex_manager, ex_world)
    = ((self', w1), Ok tt)
    /\ AssetManager_new (H := json_codec) ex_root w1 = (w2, Ok ex_manager).
Proof.
  apply (state_survives_restart (H := json_codec) ex_manager ex_world ex_state
           (<[["assets"; "state"] := File true true []]> ex_fs));
    reflexivity.
Defined.

Lemma save_state_swallows_errors_witness :
  exists w',
    save_state (H := json_codec)
      (mkAssetManager ["missing"] true (Some ex_state), ex_world)
    = ((mkAssetManager ["missing"] true (Some ex_state), w'), Ok tt)
    /\ fs w' = ex_fs.
Proof.
  destruct (save_state_swallows_errors (H := json_codec)
              (mkAssetManager ["missing"] true (Some ex_state)) ex_world)
    as (w' & Hs & _ & Hfail).
  exists w'. split; [exact Hs|].
  apply (Hfail FileNotFoundError). reflexivity.
Defined.


Lemma fetch_url_first_timeout_is_fatal_witness :
  exists w',
    fetch_url (ex_env ex_stalls_late) testdl_url ex_target ex_gather ex_world
    = (w', Raise (OSError "cannot read from timed out object"))
    /\ file_data (fs w') ex_target = Some (list_byte_of_string "abc")
    /\ net_reads w' = 3%nat
    /\ slept w' = 3.
Proof.
  apply (fetch_url_first_timeout_is_fatal (ex_env ex_stalls_late) testdl_url
           ex_target ex_gather ex_world ex_stalls_late 6
           [list_byte_of_string "abc"] (repeat timeout 4)
           (<[ex_target := File true true []]> ex_fs));
    try reflexivity.
  - repeat constructor; discriminate.
  - right. repeat split; [lia|reflexivity..].
Defined.

Lemma fetch_url_never_unlinks_witness :
  (exists data,
     file_data
       (fs (fst (fetch_url (ex_env ex_stalled) testdl_url ex_target ex_gather
                   ex_world)))
       ex_target
     = Some data)
  /\ snd (fetch_url (ex_env ex_stalled) testdl_url ex_target ex_gather
            ex_world)
     <> Raise SocketTimeout.
Proof.
  apply (fetch_url_never_unlinks (ex_env ex_stalled) testdl_url ex_target
           ex_gather ex_world ex_stalled 6
           (<[ex_target := File true true []]> ex_fs));
    reflexivity.
Defined.

Lemma fetch_url_read_error_propagates_witness :
  exists w',
    fetch_url (ex_env ex_broken) testdl_url ex_target ex_gather ex_world
    = (w', Raise (OtherError "ConnectionResetError"))
    /\ file_data (fs w') ex_target = Some (list_byte_of_string "abcdef")
    /\ net_reads w' = 3%nat.
Proof.
  apply (fetch_url_read_error_propagates (ex_env ex_broken) testdl_url
           ex_target ex_gather ex_world ex_broken 9 ex_chunks [Ok []]
           (<[ex_target := File true true []]> ex_fs)
           (OtherError "ConnectionResetError"));
    try reflexivity.
  - repeat constructor; discriminate.
  - right. repeat split; [lia|reflexivity..].
Defined.

Lemma fetch_url_zero_size_witness :
  exists w',
    fetch_url (ex_env ex_zero_size) testdl_url ex_target ex_gather ex_world
    = (w', Raise ZeroDivisionError)
    /\ file_data (fs w') ex_target = Some (list_byte_of_string "abc")
    /\ net_reads w' = 1%nat.
Proof.
  apply (fetch_url_zero_size (ex_env ex_zero_size) testdl_url ex_target
           ex_gather ex_world ex_zero_size [Ok []]
           (<[ex_target := File true true []]> ex_fs)
           (list_byte_of_string "abc"));
    try reflexivity.
  discriminate.
Defined.


Lemma fetch_url_touches_only_filename_witness :
  fs (fst (fetch_url (ex_env ex_two_chunks) testdl_url ex_target ex_gather
             (set_fs ex_fs_saved ex_world)))
    !! ["assets"; "state"]
  = ex_fs_saved !! ["assets"; "state"].
Proof.
  apply (fetch_url_touches_only_filename (ex_env ex_two_chunks) testdl_url
           ex_target ex_gather (set_fs ex_fs_saved ex_world)
           ["assets"; "state"]).
  discriminate.
Defined.

Lemma launch_gather_keeps_state_file_witness :
  fs (fst (launch_gather (ex_env ex_stalled) ex_manager ["maps"] "desktop"
             "token" (set_fs ex_fs_saved ex_world)))
    !! ["assets"]
  = ex_fs_saved !! ["assets"].
Proof.
  apply (launch_gather_keeps_state_file (ex_env ex_stalled) ex_manager
           ["maps"] "desktop" "token" (set_fs ex_fs_saved ex_world)).
  discriminate.
Defined.
